(** * Scoundrel: the rules engine of [game.js], embedded and verified

    The engine of the card game is a single mutable [Game] object whose
    methods move cards between a deck, a room, a discard pile and an
    equipped weapon.  The embedding below follows [game.js] method by
    method: every method becomes a function on an explicit [Game] record,
    returning the method's result together with the state it leaves.

    Numbers are [Z]; arrays are lists, read with stdpp's lookup; [null]
    and [undefined] are [None]; a method that would raise a [TypeError]
    returns [None].  The [timestamp] that [logEvent] attaches to each entry
    is left out of the log: it is the only field that no rule reads. *)

From stdpp Require Import base numbers list strings pretty.

Local Open Scope string_scope.
Local Open Scope list_scope.
Local Open Scope Z_scope.

(** ** Cards *)

Module SUITS.
Definition HEARTS : string := "♥".
Definition DIAMONDS : string := "♦".
Definition CLUBS : string := "♣".
Definition SPADES : string := "♠".
End SUITS.

Record Card := mkCard { suit : string; rank : string; value : Z }.

Global Instance Card_eq_dec : EqDecision Card.
Proof. solve_decision. Defined.

(** [Object.entries(RANKS)], in the order the engine enumerates it. *)
Definition RANKS : list (string * Z) :=
  [("2", 2); ("3", 3); ("4", 4); ("5", 5); ("6", 6); ("7", 7); ("8", 8);
   ("9", 9); ("10", 10); ("J", 11); ("Q", 12); ("K", 13); ("A", 14)].

Inductive CardType := monster | weapon_t | potion | unknown.

Global Instance CardType_eq_dec : EqDecision CardType.
Proof. solve_decision. Defined.

Definition getCardType (card : Card) : CardType :=
  if (String.eqb (suit card) SUITS.CLUBS || String.eqb (suit card) SUITS.SPADES)%bool
  then monster
  else if String.eqb (suit card) SUITS.DIAMONDS then weapon_t
  else if String.eqb (suit card) SUITS.HEARTS then potion
  else unknown.

Definition isMonster (c : Card) : bool :=
  bool_decide (getCardType c = monster).

Definition low_rank (e : string * Z) : bool :=
  ((2 <=? e.2) && (e.2 <=? 10))%bool.

Definition createDeck : list Card :=
  flat_map (fun s => List.map (fun e => mkCard s e.1 e.2) RANKS)
           [SUITS.CLUBS; SUITS.SPADES]
  ++ List.map (fun e => mkCard SUITS.DIAMONDS e.1 e.2) (List.filter low_rank RANKS)
  ++ List.map (fun e => mkCard SUITS.HEARTS e.1 e.2) (List.filter low_rank RANKS).

(** ** The game object *)

Record Weapon := mkWeapon {
  w_value : Z;
  lastDefeated : option Z;
  defeatedMonsters : list Card
}.

Inductive EventType := info | turn_t | success | warning | danger.

Record Event := mkEvent { message : string; type : EventType }.

Record Game := mkGame {
  seed : Z;
  health : Z;
  maxHealth : Z;
  turn : Z;
  deck : list Card;
  discard : list Card;
  room : list Card;
  weapon : option Weapon;
  canAvoid : bool;
  roomCarriedCard : option Card;
  potionUsedThisTurn : bool;
  selectedCards : list Z;
  gameOver : bool;
  gameWon : bool;
  defeatingCard : option Card;
  eventLog : list Event
}.

(** Field assignments, [this.f = v]. *)

Definition set_health (v : Z) (s : Game) : Game :=
  mkGame (seed s) v (maxHealth s) (turn s) (deck s) (discard s) (room s)
    (weapon s) (canAvoid s) (roomCarriedCard s) (potionUsedThisTurn s)
    (selectedCards s) (gameOver s) (gameWon s) (defeatingCard s) (eventLog s).

Definition set_turn (v : Z) (s : Game) : Game :=
  mkGame (seed s) (health s) (maxHealth s) v (deck s) (discard s) (room s)
    (weapon s) (canAvoid s) (roomCarriedCard s) (potionUsedThisTurn s)
    (selectedCards s) (gameOver s) (gameWon s) (defeatingCard s) (eventLog s).

Definition set_deck (v : list Card) (s : Game) : Game :=
  mkGame (seed s) (health s) (maxHealth s) (turn s) v (discard s) (room s)
    (weapon s) (canAvoid s) (roomCarriedCard s) (potionUsedThisTurn s)
    (selectedCards s) (gameOver s) (gameWon s) (defeatingCard s) (eventLog s).

Definition set_discard (v : list Card) (s : Game) : Game :=
  mkGame (seed s) (health s) (maxHealth s) (turn s) (deck s) v (room s)
    (weapon s) (canAvoid s) (roomCarriedCard s) (potionUsedThisTurn s)
    (selectedCards s) (gameOver s) (gameWon s) (defeatingCard s) (eventLog s).

Definition set_room (v : list Card) (s : Game) : Game :=
  mkGame (seed s) (health s) (maxHealth s) (turn s) (deck s) (discard s) v
    (weapon s) (canAvoid s) (roomCarriedCard s) (potionUsedThisTurn s)
    (selectedCards s) (gameOver s) (gameWon s) (defeatingCard s) (eventLog s).

Definition set_weapon (v : option Weapon) (s : Game) : Game :=
  mkGame (seed s) (health s) (maxHealth s) (turn s) (deck s) (discard s)
    (room s) v (canAvoid s) (roomCarriedCard s) (potionUsedThisTurn s)
    (selectedCards s) (gameOver s) (gameWon s) (defeatingCard s) (eventLog s).

Definition set_canAvoid (v : bool) (s : Game) : Game :=
  mkGame (seed s) (health s) (maxHealth s) (turn s) (deck s) (discard s)
    (room s) (weapon s) v (roomCarriedCard s) (potionUsedThisTurn s)
    (selectedCards s) (gameOver s) (gameWon s) (defeatingCard s) (eventLog s).

Definition set_roomCarriedCard (v : option Card) (s : Game) : Game :=
  mkGame (seed s) (health s) (maxHealth s) (turn s) (deck s) (discard s)
    (room s) (weapon s) (canAvoid s) v (potionUsedThisTurn s)
    (selectedCards s) (gameOver s) (gameWon s) (defeatingCard s) (eventLog s).

Definition set_potionUsedThisTurn (v : bool) (s : Game) : Game :=
  mkGame (seed s) (health s) (maxHealth s) (turn s) (deck s) (discard s)
    (room s) (weapon s) (canAvoid s) (roomCarriedCard s) v (selectedCards s)
    (gameOver s) (gameWon s) (defeatingCard s) (eventLog s).

Definition set_selectedCards (v : list Z) (s : Game) : Game :=
  mkGame (seed s) (health s) (maxHealth s) (turn s) (deck s) (discard s)
    (room s) (weapon s) (canAvoid s) (roomCarriedCard s)
    (potionUsedThisTurn s) v (gameOver s) (gameWon s) (defeatingCard s)
    (eventLog s).

Definition set_gameOver (v : bool) (s : Game) : Game :=
  mkGame (seed s) (health s) (maxHealth s) (turn s) (deck s) (discard s)
    (room s) (weapon s) (canAvoid s) (roomCarriedCard s)
    (potionUsedThisTurn s) (selectedCards s) v (gameWon s) (defeatingCard s)
    (eventLog s).

Definition set_gameWon (v : bool) (s : Game) : Game :=
  mkGame (seed s) (health s) (maxHealth s) (turn s) (deck s) (discard s)
    (room s) (weapon s) (canAvoid s) (roomCarriedCard s)
    (potionUsedThisTurn s) (selectedCards s) (gameOver s) v (defeatingCard s)
    (eventLog s).

Definition set_defeatingCard (v : option Card) (s : Game) : Game :=
  mkGame (seed s) (health s) (maxHealth s) (turn s) (deck s) (discard s)
    (room s) (weapon s) (canAvoid s) (roomCarriedCard s)
    (potionUsedThisTurn s) (selectedCards s) (gameOver s) (gameWon s) v
    (eventLog s).

Definition set_eventLog (v : list Event) (s : Game) : Game :=
  mkGame (seed s) (health s) (maxHealth s) (turn s) (deck s) (discard s)
    (room s) (weapon s) (canAvoid s) (roomCarriedCard s)
    (potionUsedThisTurn s) (selectedCards s) (gameOver s) (gameWon s)
    (defeatingCard s) v.

Definition logEvent (msg : string) (ty : EventType) (s : Game) : Game :=
  set_eventLog (eventLog s ++ [mkEvent msg ty]) s.

(** A card as the log prints it, [`${card.suit}${card.rank}`]. *)
Definition show (c : Card) : string := suit c +:+ rank c.

(** ** The shuffler

    The seeded generator of [shuffle] keeps one IEEE double [s], replaces
    it by [Math.sin(s) * 10000] on every call and returns its fractional
    part; the loop turns each draw into [Math.floor(rng() * (i + 1))].
    [Math.sin] is implementation-approximated, so the generator is an
    interface here: the state, how a seed starts it, how a call advances
    it, and the index a draw yields for a given [i]. *)

Class SeededRng := {
  rng_state : Type;
  rng_seed : Z -> rng_state;
  rng_advance : rng_state -> rng_state;
  rng_pick : rng_state -> nat -> nat
}.

(** A seed is good when every draw lands in [0, 1), so that
    [Math.floor(rng() * (i + 1))] is an index between [0] and [i]. *)
Definition good_seed `{SeededRng} (seed : Z) : Prop :=
  forall (k i : nat), (rng_pick (Nat.iter (S k) rng_advance (rng_seed seed)) i <= i)%nat.

(** [[array[i], array[j]] = [array[j], array[i]]]: both reads come first,
    then the write to [i], then the write to [j].  Both indices are inside
    the array whenever [j <= i < length]; the last line is the remaining
    case, which a good seed never reaches. *)
Definition swap {A} (array : list A) (i j : nat) : list A :=
  match array !! i, array !! j with
  | Some x, Some y => <[j:=x]> (<[i:=y]> array)
  | _, _ => array
  end.

(** The loop [for (let i = array.length - 1; i > 0; i--)], from [i] down. *)
Fixpoint shuffle_from `{SeededRng} {A} (i : nat) (s : rng_state) (array : list A)
  : list A :=
  match i with
  | O => array
  | S i' =>
      let s' := rng_advance s in
      let j := rng_pick s' i in
      shuffle_from i' s' (swap array i j)
  end.

(** [shuffle(array, seed)] for a seed that is not [null], the only way
    [reset] calls it. *)
Definition shuffle `{SeededRng} {A} (array : list A) (seed : Z) : list A :=
  shuffle_from (length array - 1)%nat (rng_seed seed) array.

(** A generator to run the engine with: a linear congruential state, and
    the draw reduced into range. *)
Definition lcg_rng : SeededRng := {|
  rng_state := Z;
  rng_seed := fun z => z;
  rng_advance := fun s => (s * 1103515245 + 12345) mod 2147483648;
  rng_pick := fun s i => Z.to_nat (s mod Z.of_nat (S i))
|}.

(** ** Methods of [Game] *)

Definition reset `{SeededRng} (seed : option Z) (now : Z) (s : Game) : Game :=
  let seed := match seed with Some z => z | None => now end in
  logEvent "Game started! Good luck, Scoundrel." info
    (mkGame seed 20 20 0 (shuffle createDeck seed) [] [] None true None false
       [] false false None []).

Definition monsterSum (cards : list Card) : Z :=
  foldl (fun sum card => sum + value card) 0 cards.

Definition remainingMonsters (s : Game) : list Card :=
  List.filter isMonster (deck s) ++ List.filter isMonster (room s).

(** The [score] that [endGame(false)] computes and logs. *)
Definition lossScore (s : Game) : Z := - monsterSum (remainingMonsters s).

Definition endGame (won : bool) (s : Game) : Game :=
  let s := set_gameWon won (set_gameOver true s) in
  if won then
    let score := health s in
    logEvent ("Victory! You cleared the dungeon with " +:+ pretty (health s)
              +:+ " HP remaining. Score: " +:+ pretty score) success s
  else
    let score := lossScore s in
    logEvent ("Defeated! Health: " +:+ pretty (health s) +:+ ". Score: "
              +:+ pretty score +:+ " ("
              +:+ pretty (length (remainingMonsters s))
              +:+ " monsters remaining)") danger s.

Definition getScore (s : Game) : Z :=
  if gameWon s then health s
  else if gameOver s then - monsterSum (remainingMonsters s)
  else 0.

(** [while (room.length < 4 && deck.length > 0) room.push(deck.shift())] *)
Fixpoint drawUntilFull (room deck : list Card) : list Card * list Card :=
  match deck with
  | [] => (room, [])
  | c :: deck' =>
      if (length room <? 4)%nat then drawUntilFull (room ++ [c]) deck'
      else (room, deck)
  end.

(** The part of [drawRoom] that moves cards: clear the room, seat the
    carried card, draw, count the turn. *)
Definition fillRoom (s : Game) : Game :=
  let s := set_selectedCards [] (set_potionUsedThisTurn false (set_room [] s)) in
  let s := match roomCarriedCard s with
           | Some c =>
               set_roomCarriedCard None
                 (logEvent ("Carried " +:+ show c +:+ " to new room") info
                    (set_room (room s ++ [c]) s))
           | None => s
           end in
  let drawn := drawUntilFull (room s) (deck s) in
  let s := set_deck drawn.2 (set_room drawn.1 s) in
  set_turn (turn s + 1) s.

Definition drawRoom (s : Game) : bool * Game :=
  if gameOver s then (false, s) else
  let s := fillRoom s in
  if ((length (room s) <? 4)%nat && (length (deck s) =? 0)%nat)%bool
  then (false, endGame true s)
  else (true, logEvent ("Turn " +:+ pretty (turn s) +:+ ": Entered new room with "
                        +:+ pretty (length (room s)) +:+ " cards") turn_t s).

Definition avoidRoom (s : Game) : bool * Game :=
  if (negb (canAvoid s) || gameOver s || negb (length (room s) =? 4)%nat)%bool
  then (false, s) else
  let s := set_deck (deck s ++ room s) s in
  let s := set_room [] s in
  let s := set_canAvoid false s in
  let s := set_roomCarriedCard None s in
  let s := logEvent "Avoided the room! All cards moved to bottom of deck." warning s in
  (true, (drawRoom s).2).

(** [array[index]] for a number that may be negative: [undefined] outside
    the array. *)
Definition js_get {A} (array : list A) (index : Z) : option A :=
  if index <? 0 then None else array !! Z.to_nat index.

(** [array.indexOf(x)], with [None] for [-1]. *)
Fixpoint indexOf (array : list Z) (x : Z) : option nat :=
  match array with
  | [] => None
  | y :: rest => if y =? x then Some O else S <$> indexOf rest x
  end.

Definition includes (array : list Z) (x : Z) : bool :=
  existsb (Z.eqb x) array.

Definition selectCard (index : Z) (s : Game) : bool * Game :=
  if (gameOver s || negb (bool_decide (is_Some (js_get (room s) index))))%bool
  then (false, s) else
  match indexOf (selectedCards s) index with
  | Some cardIndex =>
      (true, set_selectedCards (delete cardIndex (selectedCards s)) s)
  | None =>
      if (length (selectedCards s) <? 3)%nat
      then (true, set_selectedCards (selectedCards s ++ [index]) s)
      else (true, s)
  end.

(** What [canResolveCard] returns; a property the object literal leaves
    out is [None]. *)
Record Advice := mkAdvice {
  canResolve : bool;
  reason : option string;
  forceBareHanded : option bool
}.

(** [`${this.weapon.lastDefeated}`] inside a message. *)
Definition showLast (last : option Z) : string :=
  match last with
  | Some v => pretty v
  | None => "null"
  end.

(** [lastDefeated !== null && card.value > lastDefeated] *)
Definition tooStrong (card : Card) (w : Weapon) : bool :=
  match lastDefeated w with
  | Some last => last <? value card
  | None => false
  end.

Definition canResolveCard (card : Card) (s : Game) : Advice :=
  let type := getCardType card in
  if (bool_decide (type = potion) && potionUsedThisTurn s)%bool
  then mkAdvice false (Some "Only one potion per room") None
  else
    match weapon s with
    | Some w =>
        if (bool_decide (type = monster) && tooStrong card w)%bool
        then mkAdvice true
               (Some ("Monster too strong for weapon (" +:+ pretty (value card)
                      +:+ " > " +:+ showLast (lastDefeated w) +:+ ")"))
               (Some true)
        else mkAdvice true None None
    | None => mkAdvice true None None
    end.

(** The token that stands for a discarded weapon,
    [{ suit: SUITS.DIAMONDS, rank: String(value), value }]. *)
Definition weaponToken (v : Z) : Card := mkCard SUITS.DIAMONDS (pretty v) v.

Definition resolveWeapon (card : Card) (s : Game) : Game :=
  let s := match weapon s with
           | Some w =>
               logEvent ("Discarded old weapon ♦" +:+ pretty (w_value w)
                         +:+ " with " +:+ pretty (length (defeatedMonsters w))
                         +:+ " defeated monsters") info
                 (set_discard
                    (discard s ++ [weaponToken (w_value w)] ++ defeatedMonsters w) s)
           | None => s
           end in
  logEvent ("Equipped weapon " +:+ show card +:+ " (value "
            +:+ pretty (value card) +:+ ")") success
    (set_weapon (Some (mkWeapon (value card) None [])) s).

Definition resolvePotion (card : Card) (s : Game) : Game :=
  if potionUsedThisTurn s then
    logEvent (show card +:+ " discarded - only one potion per room") warning
      (set_discard (discard s ++ [card]) s)
  else
    let oldHealth := health s in
    let s := set_health (Z.min (maxHealth s) (health s + value card)) s in
    let healed := health s - oldHealth in
    let s := set_potionUsedThisTurn true s in
    let s := set_discard (discard s ++ [card]) s in
    logEvent ("Used potion " +:+ show card +:+ " - healed " +:+ pretty healed
              +:+ " HP (" +:+ pretty oldHealth +:+ " → " +:+ pretty (health s)
              +:+ ")") success s.

(** [canUseWeapon]: [lastDefeated === null || card.value <= lastDefeated]. *)
Definition canUseWeapon (card : Card) (w : Weapon) : bool :=
  match lastDefeated w with
  | None => true
  | Some last => value card <=? last
  end.

(** The first half of [resolveMonster]: the fight itself.  It returns the
    damage together with the state after the monster is stacked on the
    weapon or discarded. *)
Definition fightMonster (card : Card) (s : Game) : Z * Game :=
  match weapon s with
  | Some w =>
      if canUseWeapon card w then
        let damage := Z.max 0 (value card - w_value w) in
        let w' := mkWeapon (w_value w) (Some (value card))
                    (defeatedMonsters w ++ [card]) in
        (damage,
         logEvent ("Fought " +:+ show card +:+ " (" +:+ pretty (value card)
                   +:+ ") with ♦" +:+ pretty (w_value w') +:+ " - took "
                   +:+ pretty damage +:+ " damage, defeated monster (last: "
                   +:+ pretty (value card) +:+ ")")
           (if damage =? 0 then success else warning)
           (set_weapon (Some w') s))
      else
        (value card,
         logEvent (show card +:+ " (" +:+ pretty (value card)
                   +:+ ") too strong for weapon (last defeated: "
                   +:+ showLast (lastDefeated w)
                   +:+ ") - fought bare-handed, took " +:+ pretty (value card)
                   +:+ " damage!") danger
           (set_discard (discard s ++ [card]) s))
  | None =>
      (value card,
       logEvent ("Fought " +:+ show card +:+ " (" +:+ pretty (value card)
                 +:+ ") bare-handed - took " +:+ pretty (value card)
                 +:+ " damage!") danger
         (set_discard (discard s ++ [card]) s))
  end.

(** The second half, [if (damage > 0) { ... }]. *)
Definition takeDamage (card : Card) (damage : Z) (s : Game) : Game :=
  if 0 <? damage then
    let s := set_health (health s - damage) s in
    if health s <=? 0
    then endGame false (set_defeatingCard (Some card) s)
    else s
  else s.

Definition resolveMonster (card : Card) (s : Game) : Game :=
  let fought := fightMonster card s in
  takeDamage card fought.1 fought.2.

(** The body of the [switch] in [faceRoom]. *)
Definition resolveCard (card : Card) (s : Game) : Game :=
  match getCardType card with
  | weapon_t => resolveWeapon card s
  | potion => resolvePotion card s
  | monster => resolveMonster card s
  | unknown => s
  end.

(** The loop [for (const index of this.selectedCards)].  Reading
    [card.suit] of a room slot that does not exist raises a [TypeError]:
    that is the [None]. *)
Fixpoint resolveSelected (indices : list Z) (s : Game) : option Game :=
  match indices with
  | [] => Some s
  | index :: rest =>
      match js_get (room s) index with
      | None => None
      | Some card =>
          let s := resolveCard card s in
          if gameOver s then Some s else resolveSelected rest s
      end
  end.

(** [[0, 1, 2, 3].find(i => !this.selectedCards.includes(i))] *)
Definition carriedIndex (selected : list Z) : option Z :=
  List.find (fun i => negb (includes selected i)) [0; 1; 2; 3].

Definition faceRoom (s : Game) : option (bool * Game) :=
  if (negb (length (selectedCards s) =? 3)%nat || gameOver s)%bool
  then Some (false, s) else
  match resolveSelected (selectedCards s) s with
  | None => None
  | Some s =>
      let s := match carriedIndex (selectedCards s) with
               | Some i => set_roomCarriedCard (js_get (room s) i) s
               | None => s
               end in
      let s := set_room [] s in
      let s := set_canAvoid true s in
      let s := set_selectedCards [] s in
      let s := if gameOver s then s else (drawRoom s).2 in
      Some (true, s)
  end.

(** ** The driver's view: public operations and rest points *)

Inductive Op := DrawRoom | AvoidRoom | SelectCard (index : Z) | FaceRoom.

Definition perform (op : Op) (s : Game) : option (bool * Game) :=
  match op with
  | DrawRoom => Some (drawRoom s)
  | AvoidRoom => Some (avoidRoom s)
  | SelectCard index => Some (selectCard index s)
  | FaceRoom => faceRoom s
  end.

(** The states in which an operation has returned to the driver, starting
    from [s0]. *)
Inductive reachable (s0 : Game) : Game -> Prop :=
  | reach_start : reachable s0 s0
  | reach_step s op b s' :
      reachable s0 s -> perform op s = Some (b, s') -> reachable s0 s'.


(** A driver's script: the operations one after the other, results
    ignored; [None] as soon as one of them raises. *)
Fixpoint run (ops : list Op) (s : Game) : option Game :=
  match ops with
  | [] => Some s
  | op :: rest =>
      match perform op s with
      | Some (_, s') => run rest s'
      | None => None
      end
  end.

(** ** What resolution leaves alone

    Resolving a card touches health, weapon, discard pile, potion flag,
    terminal flags and log; [untouched s s'] lists the rest. *)
Definition untouched (s s' : Game) : Prop :=
  room s' = room s /\ deck s' = deck s
  /\ selectedCards s' = selectedCards s
  /\ roomCarriedCard s' = roomCarriedCard s
  /\ canAvoid s' = canAvoid s /\ maxHealth s' = maxHealth s.

(** The state [faceRoom] reaches after its loop: carry slot filled, room
    and selection cleared, [canAvoid] restored. *)
Definition leaveRoom (carried : option Card) (s : Game) : Game :=
  set_selectedCards [] (set_canAvoid true (set_room []
    (set_roomCarriedCard carried s))).

(** ** Concrete games

    States written out in full, to run the methods on. *)

Definition card_of (s : string) (v : Z) : Card := mkCard s (pretty v) v.

(** A game in its first turn with the given health, deck, room, weapon and
    selection. *)
Definition table (h : Z) (d r : list Card) (w : option Weapon) (sel : list Z)
  : Game :=
  mkGame 1 h 20 1 d [] r w true None false sel false false None [].

(** The weapon of the engine's own example: a 7 that last defeated a 9. *)
Definition seven_after_nine : Weapon :=
  mkWeapon 7 (Some 9) [card_of SUITS.CLUBS 9].

(** The last room of a game: health 15, one card carried over and two
    left in the deck. *)
Definition last_room : Game :=
  set_health 15
    (set_roomCarriedCard (Some (card_of SUITS.HEARTS 4))
       (table 20 [card_of SUITS.CLUBS 3; card_of SUITS.DIAMONDS 2] [] None [])).

(** A room with two potions, both selected before the monster. *)
Definition two_potions : Game :=
  table 10 [card_of SUITS.CLUBS 5; card_of SUITS.CLUBS 6; card_of SUITS.CLUBS 7;
            card_of SUITS.CLUBS 8]
    [card_of SUITS.HEARTS 3; card_of SUITS.HEARTS 9; card_of SUITS.SPADES 2;
     card_of SUITS.DIAMONDS 4]
    None [1; 0; 2].

(** A full room right after [reset] and [drawRoom]. *)
Definition full_room : Game :=
  table 20 [card_of SUITS.CLUBS 5; card_of SUITS.CLUBS 6; card_of SUITS.CLUBS 7;
            card_of SUITS.CLUBS 8; card_of SUITS.HEARTS 2]
    [card_of SUITS.HEARTS 3; card_of SUITS.HEARTS 9; card_of SUITS.SPADES 2;
     card_of SUITS.DIAMONDS 4]
    None [].

(** A room in which a potion has already been drunk. *)
Definition after_a_potion : Game :=
  set_potionUsedThisTurn true full_room.

(** The room of the carry example: slots 0, 2 and 3 selected, in that
    order; slot 1 stays. *)
Definition carry_room : Game :=
  table 20 [card_of SUITS.CLUBS 5; card_of SUITS.CLUBS 6; card_of SUITS.CLUBS 7;
            card_of SUITS.CLUBS 8; card_of SUITS.HEARTS 2]
    [card_of SUITS.DIAMONDS 6; card_of SUITS.SPADES 9; card_of SUITS.SPADES 8;
     card_of SUITS.HEARTS 5]
    None [0; 2; 3].

(** A room that kills: health 5, a 10 selected first, an 8 left unselected,
    a 6 still in the deck. *)
Definition fatal_room : Game :=
  table 5 [card_of SUITS.CLUBS 6; card_of SUITS.HEARTS 2]
    [card_of SUITS.SPADES 10; card_of SUITS.CLUBS 8; card_of SUITS.DIAMONDS 3;
     card_of SUITS.HEARTS 4]
    None [0; 2; 3].

(** ** The shuffle, with its reads checked

    [swap_checked] is [swap] without the last line: it answers [None] when
    one of the two slots does not exist.  [shuffle_checked] runs the same
    loop with it. *)

Definition swap_checked {A} (array : list A) (i j : nat) : option (list A) :=
  match array !! i, array !! j with
  | Some x, Some y => Some (<[j:=x]> (<[i:=y]> array))
  | _, _ => None
  end.

Fixpoint shuffle_checked_from `{SeededRng} {A} (i : nat) (s : rng_state)
  (array : list A) : option (list A) :=
  match i with
  | O => Some array
  | S i' =>
      let s' := rng_advance s in
      let j := rng_pick s' i in
      match swap_checked array i j with
      | Some array' => shuffle_checked_from i' s' array'
      | None => None
      end
  end.

Definition shuffle_checked `{SeededRng} {A} (array : list A) (seed : Z)
  : option (list A) :=
  shuffle_checked_from (length array - 1)%nat (rng_seed seed) array.

(** ** Cards by type *)

(** The value a card of each type may carry. *)
Definition in_range (c : Card) : Prop :=
  match getCardType c with
  | monster => 2 <= value c <= 14
  | weapon_t | potion => 2 <= value c <= 10
  | unknown => False
  end.

Definition count_type (t : CardType) (cards : list Card) : nat :=
  length (filter (fun c => getCardType c = t) cards).

(** ** Snapshots

    [getState] returns an object with fifteen of the sixteen fields
    ([maxHealth] is not among them); [setState] copies the fields of such
    an object onto the game with [Object.assign]. *)




(** ** The picture of a card ([getCardImage] of [ui.js]) *)

Definition between (lo hi v : Z) : bool := ((lo <=? v) && (v <=? hi))%bool.

Definition getCardImage (card : Card) : string :=
  let value := value card in
  if String.eqb (suit card) SUITS.HEARTS then "heart.jpg"
  else if (String.eqb (suit card) SUITS.DIAMONDS && between 2 4 value)%bool
  then "diamond-1.jpg"
  else if (String.eqb (suit card) SUITS.DIAMONDS && between 5 7 value)%bool
  then "diamond-2.jpg"
  else if (String.eqb (suit card) SUITS.DIAMONDS && between 8 10 value)%bool
  then "diamond-3.jpg"
  else if (String.eqb (suit card) SUITS.CLUBS && between 2 5 value)%bool
  then "club-1.jpg"
  else if (String.eqb (suit card) SUITS.CLUBS && between 6 10 value)%bool
  then "club-2.jpg"
  else if (String.eqb (suit card) SUITS.CLUBS && (11 <=? value))%bool
  then "club-3.jpg"
  else if (String.eqb (suit card) SUITS.SPADES && between 2 5 value)%bool
  then "spade-1.jpg"
  else if (String.eqb (suit card) SUITS.SPADES && between 6 10 value)%bool
  then "spade-2.jpg"
  else if (String.eqb (suit card) SUITS.SPADES && (11 <=? value))%bool
  then "spade-3.jpg"
  else "deck.jpg".

(** ** Invariants of a game in progress *)

(** The selection names distinct slots of the room, three at most. *)
Definition selection_ok (s : Game) : Prop :=
  NoDup (selectedCards s)
  /\ Forall (fun i => 0 <= i < Z.of_nat (length (room s))) (selectedCards s)
  /\ (length (selectedCards s) <= 3)%nat.

(** The room is empty or full while the game is on, and never holds more
    than four cards. *)
Definition room_ok (s : Game) : Prop :=
  (length (room s) <= 4)%nat
  /\ (gameOver s = false -> room s = [] \/ length (room s) = 4%nat).

(** Health stays within its bounds, and is spent only in a lost game. *)
Definition health_ok (s : Game) : Prop :=
  maxHealth s = 20 /\ health s <= 20
  /\ (health s <= 0 -> gameOver s = true /\ gameWon s = false).

(** Every card still to come is a card of the deck. *)
Definition cards_ok (s : Game) : Prop :=
  Forall (fun c => c ∈ createDeck)
    (deck s ++ room s ++ option_list (roomCarriedCard s)).

(** The cards an equipped weapon stands for: its own, kept only as a value,
    and the monsters stacked on it. *)
Definition weaponCards (w : option Weapon) : list Card :=
  match w with
  | Some w => weaponToken (w_value w) :: defeatedMonsters w
  | None => []
  end.

Definition cardsInPlay (s : Game) : list Card :=
  deck s ++ room s ++ option_list (roomCarriedCard s) ++ discard s
  ++ weaponCards (weapon s).

(** The monsters on a weapon, oldest first, never grow, and
    [lastDefeated] is the value of the newest. *)
Definition weapon_ok (w : Weapon) : Prop :=
  lastDefeated w = value <$> last (defeatedMonsters w)
  /\ forall i x y,
       defeatedMonsters w !! i = Some x ->
       defeatedMonsters w !! S i = Some y -> value y <= value x.


(** What no operation undoes: the seed and [maxHealth] stay, the log only
    grows at its end, the turn counter never goes back. *)
Definition appends (s s' : Game) : Prop :=
  seed s' = seed s /\ maxHealth s' = maxHealth s
  /\ eventLog s `prefix_of` eventLog s'
  /\ turn s <= turn s'.

(** [avoidRoom] up to its call of [drawRoom]: the room goes under the
    deck. *)
Definition putBack (s : Game) : Game :=
  logEvent "Avoided the room! All cards moved to bottom of deck." warning
    (set_roomCarriedCard None
       (set_canAvoid false (set_room [] (set_deck (deck s ++ room s) s)))).

(** The carry slot as [faceRoom] leaves it after its loop. *)
Definition carriedAfter (s : Game) : option Card :=
  match carriedIndex (selectedCards s) with
  | Some i => js_get (room s) i
  | None => roomCarriedCard s
  end.

(** A game lost to a monster. *)
Definition lost (s : Game) : bool := gameOver s && negb (gameWon s).

(** Whether an operation that returned [b] and left [s'] drew a room. *)
Definition drew (op : Op) (s : Game) (b : bool) (s' : Game) : bool :=
  negb (gameOver s)
  && match op with
     | DrawRoom => true
     | AvoidRoom => b
     | SelectCard _ => false
     | FaceRoom => b && negb (lost s')
     end.

(** The cards already played: the discard pile and the weapon with its
    stack. *)
Definition outCards (s : Game) : list Card :=
  discard s ++ weaponCards (weapon s).


Definition weapon_state_ok (s : Game) : Prop :=
  forall w, weapon s = Some w -> weapon_ok w.


(** A game that has never been through [reset]. *)
Definition blank : Game :=
  mkGame 0 0 0 0 [] [] [] None false None false [] false false None [].

(* ================================================================= *)
(** * Properties *)

Local Arguments pretty_Z : simpl never.
Local Arguments pretty_nat : simpl never.
Local Arguments String.append : simpl never.

(** ** Fighting a monster *)

Lemma health_logEvent m t s : health (logEvent m t s) = health s.
Proof. reflexivity. Qed.

Lemma fightMonster_health card s : health (fightMonster card s).2 = health s.
Proof.
  unfold fightMonster.
  destruct (weapon s) as [w|]; [destruct (canUseWeapon card w)|]; reflexivity.
Qed.

Lemma takeDamage_health card d s :
  0 <= d -> health (takeDamage card d s) = health s - d.
Proof.
  intros Hd. unfold takeDamage.
  destruct (Z.ltb_spec 0 d) as [Hpos|Hle].
  - cbn. destruct (health s - d <=? 0); reflexivity.
  - lia.
Qed.

Lemma takeDamage_weapon card d s : weapon (takeDamage card d s) = weapon s.
Proof.
  unfold takeDamage. destruct (0 <? d); [|reflexivity].
  cbn. destruct (health s - d <=? 0); reflexivity.
Qed.

Lemma takeDamage_discard card d s : discard (takeDamage card d s) = discard s.
Proof.
  unfold takeDamage. destruct (0 <? d); [|reflexivity].
  cbn. destruct (health s - d <=? 0); reflexivity.
Qed.

(** C1. [resolveMonster] on a card of non-negative value.  With a weapon
    equipped whose [lastDefeated] is [null] or at least the card's value,
    the weapon is used: health drops by [max(0, value - weapon.value)], the
    card is appended to [defeatedMonsters] and [lastDefeated] becomes the
    card's value.  With no weapon, or a card above [lastDefeated], the full
    value is lost, the card is pushed onto the discard pile and the weapon
    is left exactly as it was. *)
Theorem resolveMonster_weapon_rule (card : Card) (s : Game) :
  0 <= value card ->
  (forall w,
      weapon s = Some w ->
      lastDefeated w = None
      \/ (exists last, lastDefeated w = Some last /\ value card <= last) ->
      health (resolveMonster card s)
        = health s - Z.max 0 (value card - w_value w)
      /\ weapon (resolveMonster card s)
        = Some (mkWeapon (w_value w) (Some (value card))
                  (defeatedMonsters w ++ [card]))
      /\ discard (resolveMonster card s) = discard s)
  /\ (weapon s = None
      \/ (exists w last, weapon s = Some w /\ lastDefeated w = Some last
                         /\ last < value card) ->
      health (resolveMonster card s) = health s - value card
      /\ discard (resolveMonster card s) = discard s ++ [card]
      /\ weapon (resolveMonster card s) = weapon s).
Proof.
  intros Hv. unfold resolveMonster. split.
  - intros w Hw Hlast.
    assert (Huse : canUseWeapon card w = true).
    { unfold canUseWeapon. destruct Hlast as [->|(last & -> & Hle)]; [done|lia]. }
    rewrite takeDamage_health, takeDamage_weapon, takeDamage_discard,
      fightMonster_health; unfold fightMonster; rewrite Hw, Huse; cbn; [done|lia].
  - intros Hbare.
    assert (Hfight : fightMonster card s
                     = (value card, (fightMonster card s).2)
                       /\ discard (fightMonster card s).2 = discard s ++ [card]
                       /\ weapon (fightMonster card s).2 = weapon s).
    { unfold fightMonster.
      destruct Hbare as [Hnone|(w & last & Hw & Hl & Hlt)].
      - rewrite Hnone. done.
      - rewrite Hw. unfold canUseWeapon. rewrite Hl.
        destruct (Z.leb_spec (value card) last); [lia|done]. }
    destruct Hfight as (Hd & Hdiscard & Hweapon).
    rewrite takeDamage_health, takeDamage_weapon, takeDamage_discard,
      fightMonster_health, Hdiscard, Hweapon; rewrite Hd; cbn; [done|lia].
Qed.

(** The rule at work on the weapon [seven_after_nine]: a 10 is fought
    bare-handed, an 8 with the weapon. *)
Lemma resolveMonster_weapon_rule_witness :
  let s := table 20 [] [] (Some seven_after_nine) [] in
  let ten := card_of SUITS.SPADES 10 in
  0 <= value ten
  /\ health (resolveMonster ten s) = 10
  /\ discard (resolveMonster ten s) = [ten]
  /\ weapon (resolveMonster ten s) = Some seven_after_nine.
Proof.
  intros s ten. split; [cbn; lia|].
  destruct (resolveMonster_weapon_rule ten s) as [_ Hbare]; [cbn; lia|].
  apply Hbare. right. exists seven_after_nine, 9. cbn. repeat split; lia.
Defined.

Example eight_uses_the_seven :
  let s := table 20 [] [] (Some seven_after_nine) [] in
  let eight := card_of SUITS.SPADES 8 in
  health (resolveMonster eight s) = 19
  /\ (lastDefeated <$> weapon (resolveMonster eight s)) = Some (Some 8)
  /\ discard (resolveMonster eight s) = [].
Proof. vm_compute. done. Qed.

(** ** Drawing a room *)

Lemma drawUntilFull_spec (r d : list Card) :
  drawUntilFull r d = (r ++ take (4 - length r) d, drop (4 - length r) d).
Proof.
  revert r. induction d as [|x d IH]; intros r; cbn [drawUntilFull].
  - rewrite take_nil, drop_nil, app_nil_r. reflexivity.
  - destruct (Nat.ltb_spec (length r) 4) as [Hlt|Hge].
    + rewrite IH, length_app. cbn [length].
      replace (4 - length r)%nat with (S (4 - (length r + 1))) by lia.
      cbn [take drop]. rewrite <- app_assoc. reflexivity.
    + replace (4 - length r)%nat with 0%nat by lia.
      rewrite take_0, drop_0, app_nil_r. reflexivity.
Qed.

(** What the draw leaves in the room and in the deck: the carried card,
    then cards from the front of the deck. *)
Lemma fillRoom_cards (s : Game) :
  let carried := option_list (roomCarriedCard s) in
  room (fillRoom s) = carried ++ take (4 - length carried) (deck s)
  /\ deck (fillRoom s) = drop (4 - length carried) (deck s).
Proof.
  unfold fillRoom. destruct s as [? ? ? ? ? ? ? ? ? [x|] ? ? ? ? ? ?];
    cbn -[drawUntilFull]; rewrite drawUntilFull_spec; done.
Qed.

Lemma fillRoom_fields (s : Game) :
  health (fillRoom s) = health s
  /\ maxHealth (fillRoom s) = maxHealth s
  /\ discard (fillRoom s) = discard s
  /\ weapon (fillRoom s) = weapon s
  /\ canAvoid (fillRoom s) = canAvoid s
  /\ roomCarriedCard (fillRoom s) = None
  /\ potionUsedThisTurn (fillRoom s) = false
  /\ selectedCards (fillRoom s) = []
  /\ gameOver (fillRoom s) = gameOver s
  /\ gameWon (fillRoom s) = gameWon s
  /\ defeatingCard (fillRoom s) = defeatingCard s.
Proof.
  unfold fillRoom. destruct s as [? ? ? ? ? ? ? ? ? [x|] ? ? ? ? ? ?];
    cbn -[drawUntilFull]; done.
Qed.

(** The test that ends the game in [drawRoom], as a proposition. *)
Lemma won_test (s : Game) :
  ((length (room s) <? 4)%nat && (length (deck s) =? 0)%nat)%bool = true
  <-> (length (room s) < 4)%nat /\ deck s = [].
Proof.
  rewrite andb_true_iff, Nat.ltb_lt, Nat.eqb_eq.
  destruct (deck s); cbn; intuition (done || lia).
Qed.

(** [drawRoom] when the game is on, with its draw named. *)
Lemma drawRoom_unfold (s : Game) :
  gameOver s = false ->
  drawRoom s
  = if ((length (room (fillRoom s)) <? 4)%nat
        && (length (deck (fillRoom s)) =? 0)%nat)%bool
    then (false, endGame true (fillRoom s))
    else (true,
          logEvent ("Turn " +:+ pretty (turn (fillRoom s))
                    +:+ ": Entered new room with "
                    +:+ pretty (length (room (fillRoom s))) +:+ " cards")
            turn_t (fillRoom s)).
Proof. intros Hgo. unfold drawRoom. rewrite Hgo. reflexivity. Qed.

(** Whichever way [drawRoom] ends, the cards lie as [fillRoom] left them. *)
Lemma drawRoom_fill (s : Game) :
  gameOver s = false ->
  let s' := (drawRoom s).2 in
  room s' = room (fillRoom s) /\ deck s' = deck (fillRoom s)
  /\ discard s' = discard s /\ weapon s' = weapon s
  /\ roomCarriedCard s' = None /\ selectedCards s' = []
  /\ health s' = health s /\ maxHealth s' = maxHealth s
  /\ potionUsedThisTurn s' = false /\ canAvoid s' = canAvoid s
  /\ (gameOver s' = false -> (length (room s') = 4%nat \/ deck s' <> [])).
Proof.
  intros Hgo. cbv zeta. rewrite (drawRoom_unfold s Hgo).
  destruct (fillRoom_fields s) as (Hh & Hm & Hd & Hw & Ha & Hc & Hp & Hs & _).
  destruct (fillRoom_cards s) as [Hroom _].
  assert (Hlen : (length (room (fillRoom s)) <= 4)%nat).
  { rewrite Hroom, length_app, length_take.
    destruct (roomCarriedCard s); unfold option_list; simpl length; lia. }
  clear Hroom. pose proof (won_test (fillRoom s)) as Htest.
  revert Hh Hm Hd Hw Ha Hc Hp Hs Hlen Htest. generalize (fillRoom s) as t.
  intros t Hh Hm Hd Hw Ha Hc Hp Hs Hlen Htest.
  destruct ((length (room t) <? 4)%nat && (length (deck t) =? 0)%nat)%bool;
    cbn [snd].
  - repeat (split; [first [reflexivity|assumption]|]).
    intros Hover. change (true = false) in Hover. discriminate.
  - repeat (split; [first [reflexivity|assumption]|]). intros _.
    change (length (room t) = 4%nat \/ deck t <> []).
    destruct (deck t); [left|right; discriminate].
    destruct (decide (length (room t) = 4%nat)) as [|Hne]; [assumption|].
    assert (Hyes : false = true); [|discriminate].
    apply Htest. split; [lia|reflexivity].
Qed.

(** C5. When the game is on, [drawRoom] seats the carried card, draws
    from the front of the deck until the room holds 4 cards or the deck is
    empty, and ends the game as a win exactly when the room then holds
    fewer than 4 cards and the deck is empty: it returns [false] with
    [gameOver = gameWon = true] and [getScore] is the health; otherwise it
    returns [true] and the game is still on. *)
Theorem drawRoom_wins_exactly (s : Game) :
  gameOver s = false ->
  let carried := option_list (roomCarriedCard s) in
  let drawn := carried ++ take (4 - length carried) (deck s) in
  let rest := drop (4 - length carried) (deck s) in
  let s' := (drawRoom s).2 in
  room s' = drawn /\ deck s' = rest /\ health s' = health s
  /\ ((length drawn < 4)%nat /\ rest = [] ->
      (drawRoom s).1 = false /\ gameOver s' = true /\ gameWon s' = true
      /\ getScore s' = health s)
  /\ (~ ((length drawn < 4)%nat /\ rest = []) ->
      (drawRoom s).1 = true /\ gameOver s' = false /\ gameWon s' = gameWon s).
Proof.
  intros Hgo carried drawn rest s'. subst s'.
  destruct (fillRoom_cards s) as [Hroom Hdeck].
  destruct (fillRoom_fields s) as (Hh & _ & _ & _ & _ & _ & _ & _ & Hgo' & Hwon & _).
  fold carried in Hroom, Hdeck. fold drawn in Hroom. fold rest in Hdeck.
  rewrite Hgo in Hgo'. rewrite (drawRoom_unfold s Hgo).
  pose proof (won_test (fillRoom s)) as Htest.
  revert Hroom Hdeck Hh Hgo' Hwon Htest. generalize (fillRoom s) as t.
  intros t Hroom Hdeck Hh Hgo' Hwon Htest.
  destruct ((length (room t) <? 4)%nat && (length (deck t) =? 0)%nat)%bool;
    rewrite Hroom, Hdeck in Htest; cbn [fst snd].
  - assert (Hyes : (length drawn < 4)%nat /\ rest = []) by (apply Htest; reflexivity).
    split; [exact Hroom|]. split; [exact Hdeck|]. split; [exact Hh|].
    split; [|intros Hno; contradiction].
    intros _. unfold getScore. cbn [gameWon endGame set_gameWon].
    split; [reflexivity|]. split; [reflexivity|]. split; [reflexivity|exact Hh].
  - assert (Hno : ~ ((length drawn < 4)%nat /\ rest = [])).
    { intros Hyes. apply Htest in Hyes. discriminate. }
    split; [exact Hroom|]. split; [exact Hdeck|]. split; [exact Hh|].
    split; [intros Hyes; contradiction|].
    intros _. split; [reflexivity|]. split; [exact Hgo'|exact Hwon].
Qed.

Lemma drawRoom_wins_exactly_witness :
  gameOver last_room = false
  /\ (drawRoom last_room).1 = false
  /\ gameWon (drawRoom last_room).2 = true
  /\ getScore (drawRoom last_room).2 = 15.
Proof.
  split; [reflexivity|].
  destruct (drawRoom_wins_exactly last_room eq_refl) as (_ & _ & _ & Hwin & _).
  destruct Hwin as (Hret & _ & Hwon & Hscore).
  - cbn. split; [lia|reflexivity].
  - auto.
Defined.

(** ** Potions *)

Lemma takeDamage_potionUsed card d s :
  potionUsedThisTurn (takeDamage card d s) = potionUsedThisTurn s.
Proof.
  unfold takeDamage. destruct (0 <? d); [|reflexivity].
  cbn. destruct (health s - d <=? 0); reflexivity.
Qed.

Lemma fightMonster_potionUsed card s :
  potionUsedThisTurn (fightMonster card s).2 = potionUsedThisTurn s.
Proof.
  unfold fightMonster.
  destruct (weapon s) as [w|]; [destruct (canUseWeapon card w)|]; reflexivity.
Qed.

Lemma resolveWeapon_potionUsed card s :
  potionUsedThisTurn (resolveWeapon card s) = potionUsedThisTurn s.
Proof. unfold resolveWeapon. destruct (weapon s); reflexivity. Qed.

(** No resolution gives a drunk potion back. *)
Lemma resolveCard_potionUsed card s :
  potionUsedThisTurn s = true -> potionUsedThisTurn (resolveCard card s) = true.
Proof.
  intros Hused. unfold resolveCard. destruct (getCardType card).
  - unfold resolveMonster. rewrite takeDamage_potionUsed, fightMonster_potionUsed.
    exact Hused.
  - rewrite resolveWeapon_potionUsed. exact Hused.
  - unfold resolvePotion. rewrite Hused. exact Hused.
  - exact Hused.
Qed.

(** C6. One potion heals per room.  While [potionUsedThisTurn] is unset, a
    potion sets health to [min(maxHealth, health + value)], sets the flag
    and is discarded.  Once the flag is set it stays set through every
    further resolution, whatever the cards, and a potion resolved under it
    is discarded with health untouched.  [drawRoom] clears the flag. *)
Theorem one_potion_per_room (card : Card) (s : Game) :
  (potionUsedThisTurn s = false ->
     health (resolvePotion card s) = Z.min (maxHealth s) (health s + value card)
     /\ health (resolvePotion card s) <= maxHealth s
     /\ potionUsedThisTurn (resolvePotion card s) = true
     /\ discard (resolvePotion card s) = discard s ++ [card])
  /\ (forall others : list Card,
        potionUsedThisTurn s = true ->
        let later := foldl (fun st other => resolveCard other st) s others in
        potionUsedThisTurn later = true
        /\ health (resolvePotion card later) = health later
        /\ discard (resolvePotion card later) = discard later ++ [card])
  /\ (gameOver s = false -> potionUsedThisTurn (drawRoom s).2 = false).
Proof.
  split; [|split].
  - intros Hfresh. unfold resolvePotion. rewrite Hfresh. cbn.
    repeat split; lia.
  - intros others Hused later.
    assert (Hlater : potionUsedThisTurn later = true).
    { subst later. revert s Hused.
      induction others as [|other others IH]; intros s Hused; cbn [foldl].
      - exact Hused.
      - apply IH, resolveCard_potionUsed, Hused. }
    unfold resolvePotion. rewrite Hlater. done.
  - intros Hgo. apply (drawRoom_fill s Hgo).
Qed.

(** In [two_potions] the 9 is selected first and heals; the 3 comes second
    and is only discarded. *)
Lemma one_potion_per_room_witness :
  let nine := card_of SUITS.HEARTS 9 in
  let three := card_of SUITS.HEARTS 3 in
  potionUsedThisTurn two_potions = false
  /\ health (resolvePotion nine two_potions) = 19
  /\ health (resolvePotion three (resolvePotion nine two_potions)) = 19
  /\ discard (resolvePotion three (resolvePotion nine two_potions)) = [nine; three].
Proof.
  intros nine three.
  destruct (one_potion_per_room nine two_potions) as (Hfirst & _ & _).
  destruct (Hfirst eq_refl) as (Hheal & _ & Hflag & Hdiscard).
  destruct (one_potion_per_room three (resolvePotion nine two_potions))
    as (_ & Hlater & _).
  destruct (Hlater [] Hflag) as (_ & Hsame & Hdiscard2).
  cbn [foldl] in Hsame, Hdiscard2.
  split; [reflexivity|]. split; [exact Hheal|].
  split; [rewrite Hsame; exact Hheal|].
  rewrite Hdiscard2, Hdiscard. reflexivity.
Defined.

Example two_potions_faced :
  exists s', faceRoom two_potions = Some (true, s')
             /\ health s' = 17
             /\ discard s' = [card_of SUITS.HEARTS 9; card_of SUITS.HEARTS 3;
                              card_of SUITS.SPADES 2].
Proof. eexists. vm_compute. done. Qed.

(** ** Misuse *)

Lemma selectCard_canAvoid index s :
  canAvoid (selectCard index s).2 = canAvoid s.
Proof.
  unfold selectCard.
  destruct (gameOver s || _)%bool; [reflexivity|].
  destruct (indexOf (selectedCards s) index); [reflexivity|].
  destruct (length (selectedCards s) <? 3)%nat; reflexivity.
Qed.

Lemma drawRoom_canAvoid s : canAvoid (drawRoom s).2 = canAvoid s.
Proof.
  destruct (gameOver s) eqn:Hgo.
  - unfold drawRoom. rewrite Hgo. reflexivity.
  - apply (drawRoom_fill s Hgo).
Qed.

Lemma avoidRoom_refused s :
  canAvoid s = false \/ length (room s) <> 4%nat \/ gameOver s = true ->
  avoidRoom s = (false, s).
Proof.
  intros H. unfold avoidRoom.
  destruct (canAvoid s), (gameOver s), (Nat.eqb_spec (length (room s)) 4);
    cbn; try reflexivity.
  destruct H as [H|[H|H]]; done.
Qed.

(** Without a [faceRoom], nothing gives [canAvoid] back. *)
Lemma run_keeps_avoid_spent ops s s' :
  Forall (fun op => op <> FaceRoom) ops ->
  canAvoid s = false -> run ops s = Some s' -> canAvoid s' = false.
Proof.
  intros Hops. revert s. induction Hops as [|op ops Hop _ IH]; intros s Hca Hrun.
  - cbn in Hrun. congruence.
  - cbn [run] in Hrun. destruct op; try done; cbn [perform] in Hrun.
    + destruct (drawRoom s) as [b s1] eqn:E. apply (IH s1); [|exact Hrun].
      change s1 with (b, s1).2. rewrite <- E, drawRoom_canAvoid. exact Hca.
    + rewrite avoidRoom_refused in Hrun by auto. apply (IH s); assumption.
    + destruct (selectCard index s) as [b s1] eqn:E. apply (IH s1); [|exact Hrun].
      change s1 with (b, s1).2. rewrite <- E, selectCard_canAvoid. exact Hca.
Qed.

(** C7. Misuse is refused in silence: the call returns [false], raises
    nothing and leaves the state as it was.  That holds for [avoidRoom]
    when [canAvoid] is false or the room does not hold exactly 4 cards, for
    [faceRoom] when the selection does not hold exactly 3 indices, for
    [selectCard] on an index with no room card behind it, and for every
    operation once the game is over.  After an [avoidRoom] that went
    through, whatever the driver does short of [faceRoom], the next
    [avoidRoom] is refused. *)
Theorem misuse_is_refused (s : Game) :
  (canAvoid s = false \/ length (room s) <> 4%nat -> avoidRoom s = (false, s))
  /\ (length (selectedCards s) <> 3%nat -> faceRoom s = Some (false, s))
  /\ (forall index, js_get (room s) index = None -> selectCard index s = (false, s))
  /\ (gameOver s = true -> forall op, perform op s = Some (false, s))
  /\ (forall ops s',
        canAvoid s = true -> gameOver s = false -> length (room s) = 4%nat ->
        Forall (fun op => op <> FaceRoom) ops ->
        run ops (avoidRoom s).2 = Some s' ->
        (avoidRoom s).1 = true /\ avoidRoom s' = (false, s')).
Proof.
  repeat split.
  - intros H. apply avoidRoom_refused. tauto.
  - intros H. unfold faceRoom.
    destruct (Nat.eqb_spec (length (selectedCards s)) 3); done.
  - intros index H. unfold selectCard. rewrite H.
    rewrite bool_decide_eq_false_2 by (intros [? ?]; done).
    rewrite orb_true_r. reflexivity.
  - intros Hover [| |index|]; cbn [perform].
    + unfold drawRoom. rewrite Hover. reflexivity.
    + rewrite avoidRoom_refused by auto. reflexivity.
    + unfold selectCard. rewrite Hover. reflexivity.
    + unfold faceRoom. rewrite Hover, orb_true_r. reflexivity.
  - unfold avoidRoom. rewrite H, H0, H1. reflexivity.
  - apply avoidRoom_refused. left.
    apply (run_keeps_avoid_spent ops (avoidRoom s).2 s'); [assumption| |assumption].
    unfold avoidRoom. rewrite H, H0, H1. cbn [negb orb Nat.eqb snd].
    rewrite drawRoom_canAvoid. reflexivity.
Qed.

(** Avoiding [full_room], selecting two cards of the next room and
    avoiding again: the second call is refused. *)
Lemma misuse_is_refused_witness :
  exists s',
    run [SelectCard 0; SelectCard 3] (avoidRoom full_room).2 = Some s'
    /\ (avoidRoom full_room).1 = true
    /\ avoidRoom s' = (false, s')
    /\ selectCard 7 s' = (false, s')
    /\ faceRoom s' = Some (false, s').
Proof.
  eexists. split; [vm_compute; reflexivity|].
  match goal with |- context [avoidRoom ?x = (false, _)] => set (s' := x) end.
  destruct (misuse_is_refused full_room) as (_ & _ & _ & _ & Hagain).
  destruct (Hagain [SelectCard 0; SelectCard 3] s') as [Hfirst Hsecond];
    try reflexivity.
  { repeat constructor; discriminate. }
  destruct (misuse_is_refused s') as (_ & Hface & Hselect & _).
  split; [exact Hfirst|]. split; [exact Hsecond|]. split.
  - apply Hselect. reflexivity.
  - apply Hface. cbn. lia.
Defined.

(** ** The advice of [canResolveCard] *)

(** C10, as stated, fails: for a potion in a room where a potion has been
    used, [canResolveCard] answers [canResolve: false]. *)
Lemma canResolveCard_says_no :
  canResolve (canResolveCard (card_of SUITS.HEARTS 2) after_a_potion) = false.
Proof. reflexivity. Qed.

(** C10, amended.  [canResolveCard] is a function of the card and the
    state.  For a potion in a room where a potion has been used it returns
    [canResolve: false] with the reason "Only one potion per room"; in
    every other case [canResolve] is [true].  For a monster above the
    [lastDefeated] of the equipped weapon it adds a reason and
    [forceBareHanded: true]; otherwise it adds nothing.  Resolution does
    not ask: the refused potion is still resolved, discarded without
    healing. *)
Theorem canResolveCard_advice (card : Card) (s : Game) :
  (getCardType card = potion /\ potionUsedThisTurn s = true ->
     canResolveCard card s = mkAdvice false (Some "Only one potion per room") None
     /\ discard (resolveCard card s) = discard s ++ [card]
     /\ health (resolveCard card s) = health s)
  /\ (~ (getCardType card = potion /\ potionUsedThisTurn s = true) ->
      canResolve (canResolveCard card s) = true
      /\ ((exists w last, getCardType card = monster /\ weapon s = Some w
                          /\ lastDefeated w = Some last /\ last < value card) ->
          forceBareHanded (canResolveCard card s) = Some true
          /\ is_Some (reason (canResolveCard card s)))
      /\ (~ (exists w last, getCardType card = monster /\ weapon s = Some w
                            /\ lastDefeated w = Some last /\ last < value card) ->
          canResolveCard card s = mkAdvice true None None)).
Proof.
  unfold canResolveCard. split.
  - intros [Hpotion Hused]. rewrite Hpotion, Hused. cbn.
    unfold resolveCard, resolvePotion. rewrite Hpotion, Hused. done.
  - intros Hfree.
    assert (Hno : (bool_decide (getCardType card = potion)
                   && potionUsedThisTurn s)%bool = false).
    { destruct (potionUsedThisTurn s); [|apply andb_false_r].
      rewrite bool_decide_eq_false_2; [done|]. intros Hp. apply Hfree. done. }
    rewrite Hno. split; [|split].
    + destruct (weapon s) as [w|]; [|done].
      destruct (bool_decide (getCardType card = monster) && tooStrong card w)%bool;
        done.
    + intros (w & last & Hm & Hw & Hl & Hlt). rewrite Hw, Hm.
      unfold tooStrong. rewrite Hl.
      destruct (Z.ltb_spec last (value card)); [|lia]. cbn. split; [done|eauto].
    + intros Hnone. destruct (weapon s) as [w|] eqn:Hw; [|done].
      destruct (bool_decide (getCardType card = monster) && tooStrong card w)%bool
        eqn:Htest; [|done].
      exfalso. apply Hnone. apply andb_true_iff in Htest as [Hm Hs].
      apply bool_decide_eq_true in Hm. unfold tooStrong in Hs.
      destruct (lastDefeated w) as [last|] eqn:Hl; [|done].
      exists w, last. repeat split; try done. lia.
Qed.

Lemma canResolveCard_advice_witness :
  let two := card_of SUITS.HEARTS 2 in
  (getCardType two = potion /\ potionUsedThisTurn after_a_potion = true)
  /\ canResolve (canResolveCard two after_a_potion) = false
  /\ discard (resolveCard two after_a_potion) = [two]
  /\ health (resolveCard two after_a_potion) = 20.
Proof.
  intros two.
  assert (Hpre : getCardType two = potion /\ potionUsedThisTurn after_a_potion = true)
    by (split; reflexivity).
  split; [exact Hpre|].
  destruct (canResolveCard_advice two after_a_potion) as [Hpotion _].
  destruct (Hpotion Hpre) as (Hadvice & Hdiscard & Hhealth).
  rewrite Hadvice. split; [reflexivity|]. split; assumption.
Defined.

Example too_strong_is_only_a_warning :
  canResolveCard (card_of SUITS.SPADES 10)
    (table 20 [] [] (Some seven_after_nine) [])
  = mkAdvice true (Some "Monster too strong for weapon (10 > 9)") (Some true).
Proof. vm_compute. reflexivity. Qed.

(** ** Losing *)

(** C3 on [fatal_room].  The 10 is faced first with 5 health: it becomes
    [defeatingCard] and the game is lost.  The monsters that remain are
    the 6 in the deck and the unselected 8, which would score -14.
    [endGame] logs -24, because the room it sums still holds the 10;
    [getScore], asked once [faceRoom] has returned, gives -6, because by
    then the room is gone and the 8 sits in the carry slot. *)
Theorem loss_score_on_fatal_room :
  exists s',
    faceRoom fatal_room = Some (true, s')
    /\ gameOver s' = true /\ gameWon s' = false
    /\ defeatingCard s' = Some (card_of SUITS.SPADES 10)
    /\ last (eventLog s')
       = Some (mkEvent "Defeated! Health: -5. Score: -24 (3 monsters remaining)"
                 danger)
    /\ lossScore (resolveMonster (card_of SUITS.SPADES 10) fatal_room) = -24
    /\ getScore s' = -6
    /\ discard s' = [card_of SUITS.SPADES 10]
    /\ roomCarriedCard s' = Some (card_of SUITS.CLUBS 8).
Proof. eexists. vm_compute. repeat split; reflexivity. Qed.

(** ** Facing a room *)

Lemma untouched_refl s : untouched s s.
Proof. repeat split. Qed.

Lemma untouched_trans s1 s2 s3 :
  untouched s1 s2 -> untouched s2 s3 -> untouched s1 s3.
Proof. unfold untouched. intuition congruence. Qed.

Lemma endGame_untouched won s : untouched s (endGame won s).
Proof. unfold endGame. destruct won; repeat split. Qed.

Lemma takeDamage_untouched card d s : untouched s (takeDamage card d s).
Proof.
  unfold takeDamage. destruct (0 <? d); [|apply untouched_refl].
  cbv zeta. destruct (_ <=? 0); [|repeat split].
  eapply untouched_trans; [|apply endGame_untouched]. repeat split.
Qed.

Lemma fightMonster_untouched card s : untouched s (fightMonster card s).2.
Proof.
  unfold fightMonster.
  destruct (weapon s) as [w|]; [destruct (canUseWeapon card w)|]; repeat split.
Qed.

Lemma resolveCard_untouched card s : untouched s (resolveCard card s).
Proof.
  unfold resolveCard. destruct (getCardType card).
  - unfold resolveMonster.
    eapply untouched_trans; [apply fightMonster_untouched|apply takeDamage_untouched].
  - unfold resolveWeapon. destruct (weapon s); repeat split.
  - unfold resolvePotion. destruct (potionUsedThisTurn s); repeat split.
  - apply untouched_refl.
Qed.

Lemma resolveCard_room card s : room (resolveCard card s) = room s.
Proof. apply resolveCard_untouched. Qed.

(** The loop on three selected slots that exist: the cards are resolved in
    the order of the selection, and the loop stops at the first one that
    ends the game. *)
Lemma resolveSelected_three (s : Game) (a b c : Z) (ca cb cc : Card) :
  js_get (room s) a = Some ca ->
  js_get (room s) b = Some cb ->
  js_get (room s) c = Some cc ->
  let s1 := resolveCard ca s in
  let s2 := if gameOver s1 then s1 else resolveCard cb s1 in
  let s3 := if gameOver s2 then s2 else resolveCard cc s2 in
  resolveSelected [a; b; c] s = Some s3 /\ untouched s s3.
Proof.
  intros Ha Hb Hc s1 s2 s3. cbn [resolveSelected]. rewrite Ha. fold s1.
  assert (U1 : untouched s s1) by apply resolveCard_untouched.
  subst s3 s2. destruct (gameOver s1) eqn:G1; [rewrite G1; done|].
  rewrite (proj1 U1), Hb.
  set (s2 := resolveCard cb s1).
  assert (U2 : untouched s s2)
    by (eapply untouched_trans; [exact U1|apply resolveCard_untouched]).
  destruct (gameOver s2) eqn:G2; [done|].
  rewrite (proj1 U2), Hc.
  set (s3 := resolveCard cc s2).
  assert (U3 : untouched s s3)
    by (eapply untouched_trans; [exact U2|apply resolveCard_untouched]).
  destruct (gameOver s3); done.
Qed.

(** Three distinct slots of a 4-card room leave exactly one slot out, and
    that is the one [find] returns. *)
Lemma carriedIndex_unique (a b c d : Z) :
  0 <= a < 4 -> 0 <= b < 4 -> 0 <= c < 4 -> 0 <= d < 4 ->
  a <> b -> a <> c -> b <> c -> d <> a -> d <> b -> d <> c ->
  carriedIndex [a; b; c] = Some d.
Proof.
  intros Ha Hb Hc Hd Hab Hac Hbc Hda Hdb Hdc.
  assert (Ea : a = 0 \/ a = 1 \/ a = 2 \/ a = 3) by lia.
  assert (Eb : b = 0 \/ b = 1 \/ b = 2 \/ b = 3) by lia.
  assert (Ec : c = 0 \/ c = 1 \/ c = 2 \/ c = 3) by lia.
  assert (Ed : d = 0 \/ d = 1 \/ d = 2 \/ d = 3) by lia.
  destruct Ea as [-> | [-> | [-> | ->]]], Eb as [-> | [-> | [-> | ->]]],
    Ec as [-> | [-> | [-> | ->]]]; try lia;
    destruct Ed as [-> | [-> | [-> | ->]]]; try lia; reflexivity.
Qed.

Lemma js_get_room4 (r0 r1 r2 r3 : Card) (i : Z) :
  0 <= i < 4 -> is_Some (js_get [r0; r1; r2; r3] i).
Proof.
  intros Hi. assert (E : i = 0 \/ i = 1 \/ i = 2 \/ i = 3) by lia.
  destruct E as [-> | [-> | [-> | ->]]]; cbn; eauto.
Qed.

(** C8. [faceRoom] on a 4-card room with three distinct slots [a], [b],
    [c] selected, [d] being the slot left out.  The three cards are
    resolved in the order [a], [b], [c] of the selection, stopping at the
    first one that ends the game.  If the game ended on the way, the card
    in slot [d] is left in the carry slot and the room is empty.  If not,
    the call goes on to [drawRoom], and the card of slot [d] is the first
    card of the next room, followed by the next cards of the deck. *)
Theorem faceRoom_order_and_carry (s : Game) (a b c d : Z) :
  gameOver s = false ->
  length (room s) = 4%nat ->
  selectedCards s = [a; b; c] ->
  0 <= a < 4 -> 0 <= b < 4 -> 0 <= c < 4 -> 0 <= d < 4 ->
  a <> b -> a <> c -> b <> c -> d <> a -> d <> b -> d <> c ->
  exists ca cb cc cd : Card,
    js_get (room s) a = Some ca /\ js_get (room s) b = Some cb
    /\ js_get (room s) c = Some cc /\ js_get (room s) d = Some cd
    /\ let s1 := resolveCard ca s in
       let s2 := if gameOver s1 then s1 else resolveCard cb s1 in
       let s3 := if gameOver s2 then s2 else resolveCard cc s2 in
       (gameOver s3 = true ->
          faceRoom s = Some (true, leaveRoom (Some cd) s3))
       /\ (gameOver s3 = false ->
           let next := (drawRoom (leaveRoom (Some cd) s3)).2 in
           faceRoom s = Some (true, next)
           /\ room next = cd :: take 3 (deck s)
           /\ roomCarriedCard next = None).
Proof.
  intros Hgo Hlen Hsel Ha Hb Hc Hd Hab Hac Hbc Hda Hdb Hdc.
  destruct (room s) as [|r0 [|r1 [|r2 [|r3 [|]]]]] eqn:Hroom; try done.
  destruct (js_get_room4 r0 r1 r2 r3 a Ha) as [ca Hca].
  destruct (js_get_room4 r0 r1 r2 r3 b Hb) as [cb Hcb].
  destruct (js_get_room4 r0 r1 r2 r3 c Hc) as [cc Hcc].
  destruct (js_get_room4 r0 r1 r2 r3 d Hd) as [cd Hcd].
  exists ca, cb, cc, cd. repeat (split; [assumption|]).
  rewrite <- Hroom in Hca, Hcb, Hcc, Hcd.
  destruct (resolveSelected_three s a b c ca cb cc Hca Hcb Hcc) as [Hloop U].
  cbv zeta in Hloop, U |- *.
  set (s3 := if gameOver (if gameOver (resolveCard ca s) then resolveCard ca s
                          else resolveCard cb (resolveCard ca s))
             then _ else _) in *.
  destruct U as (Ur & Ud & Us & _).
  assert (Hface : faceRoom s
                  = Some (true, if gameOver s3 then leaveRoom (Some cd) s3
                                else (drawRoom (leaveRoom (Some cd) s3)).2)).
  { unfold faceRoom. rewrite Hsel, Hgo. cbn [length Nat.eqb negb orb].
    rewrite Hloop, Us, Hsel, (carriedIndex_unique a b c d) by assumption.
    rewrite Ur, Hcd. reflexivity. }
  split; intros Hend; rewrite Hface, Hend; [reflexivity|].
  split; [reflexivity|].
  destruct (drawRoom_fill (leaveRoom (Some cd) s3) Hend)
    as (Hr & _ & _ & _ & Hcarry & _).
  destruct (fillRoom_cards (leaveRoom (Some cd) s3)) as [Hfill _].
  split; [|exact Hcarry].
  rewrite Hr, Hfill. cbn. rewrite Ud. reflexivity.
Qed.

(** In [carry_room] the slots 0, 2, 3 are selected: the 9 of spades in slot
    1 opens the next room. *)
Lemma faceRoom_order_and_carry_witness :
  exists next,
    faceRoom carry_room = Some (true, next)
    /\ room next = [card_of SUITS.SPADES 9; card_of SUITS.CLUBS 5;
                    card_of SUITS.CLUBS 6; card_of SUITS.CLUBS 7]
    /\ roomCarriedCard next = None.
Proof.
  destruct (faceRoom_order_and_carry carry_room 0 2 3 1)
    as (ca & cb & cc & cd & Ea & Eb & Ec & Ed & _ & Hgoes);
    try reflexivity; try lia.
  injection Ea as <-. injection Eb as <-. injection Ec as <-. injection Ed as <-.
  cbv zeta in Hgoes. destruct Hgoes as (Hface & Hroom & Hcarry); [reflexivity|].
  eexists. split; [exact Hface|]. split; [exact Hroom|exact Hcarry].
Defined.

Example selection_order_matters :
  (health <$> run [SelectCard 0; SelectCard 2; SelectCard 3; FaceRoom]
                (set_selectedCards [] carry_room)) = Some 20
  /\ (health <$> run [SelectCard 2; SelectCard 0; SelectCard 3; FaceRoom]
                   (set_selectedCards [] carry_room)) = Some 17.
Proof. vm_compute. done. Qed.

(** ** The deck and its shuffle *)

Lemma swap_perm {A} (array : list A) (i j : nat) : swap array i j ≡ₚ array.
Proof.
  unfold swap.
  destruct (array !! i) as [x|] eqn:Hi; [|reflexivity].
  destruct (array !! j) as [y|] eqn:Hj; [|reflexivity].
  apply Permutation_insert_swap; assumption.
Qed.

Lemma shuffle_from_perm `{SeededRng} {A} (i : nat) (s : rng_state)
  (array : list A) : shuffle_from i s array ≡ₚ array.
Proof.
  revert s array. induction i as [|i IH]; intros s array; cbn [shuffle_from].
  - reflexivity.
  - rewrite IH. apply swap_perm.
Qed.

Lemma shuffle_perm `{SeededRng} {A} (array : list A) (seed : Z) :
  shuffle array seed ≡ₚ array.
Proof. unfold shuffle. apply shuffle_from_perm. Qed.

Lemma swap_length {A} (array : list A) (i j : nat) :
  length (swap array i j) = length array.
Proof. rewrite swap_perm. reflexivity. Qed.

Lemma swap_checked_in_range {A} (array : list A) (i j : nat) :
  (j <= i < length array)%nat -> swap_checked array i j = Some (swap array i j).
Proof.
  intros [Hji Hi].
  destruct (lookup_lt_is_Some_2 array i Hi) as [x Hx].
  destruct (lookup_lt_is_Some_2 array j) as [y Hy]; [lia|].
  unfold swap_checked, swap. rewrite Hx, Hy. reflexivity.
Qed.

Lemma shuffle_checked_from_good `{SeededRng} {A} (i : nat) (s : rng_state)
  (array : list A) :
  (forall k i', (rng_pick (Nat.iter (S k) rng_advance s) i' <= i')%nat) ->
  (i < length array)%nat ->
  shuffle_checked_from i s array = Some (shuffle_from i s array).
Proof.
  revert s array. induction i as [|i IH]; intros s array Hgood Hi;
    cbn [shuffle_checked_from shuffle_from]; [reflexivity|].
  rewrite swap_checked_in_range by (split; [apply (Hgood O)|exact Hi]).
  apply IH.
  - intros k i'. rewrite <- Nat.iter_succ_r. apply Hgood.
  - rewrite swap_length. lia.
Qed.

(** X1. For a good seed, [shuffle] returns a permutation of the array it
    is given, of the same length, whatever the array, and every swap of
    the loop reads two slots that exist: the checked loop gives the same
    array. *)
Theorem shuffle_is_a_permutation `{SeededRng} {A} (array : list A) (seed : Z) :
  good_seed seed ->
  shuffle array seed ≡ₚ array
  /\ length (shuffle array seed) = length array
  /\ shuffle_checked array seed = Some (shuffle array seed).
Proof.
  intros Hgood.
  assert (Hperm : shuffle array seed ≡ₚ array) by apply shuffle_perm.
  split; [exact Hperm|]. split; [rewrite Hperm; reflexivity|].
  unfold shuffle_checked, shuffle. destruct array as [|x array]; [reflexivity|].
  apply shuffle_checked_from_good; [exact Hgood|cbn; lia].
Qed.

Lemma lcg_good_seed (seed : Z) : good_seed (H := lcg_rng) seed.
Proof.
  intros k i. cbn [rng_pick lcg_rng].
  pose proof (Z.mod_pos_bound
                (Nat.iter (S k) (@rng_advance lcg_rng) (@rng_seed lcg_rng seed))
                (Z.of_nat (S i))) as Hb.
  lia.
Qed.

Lemma shuffle_is_a_permutation_witness :
  good_seed (H := lcg_rng) 42
  /\ shuffle (H := lcg_rng) [1; 2; 3; 4; 5] 42 ≡ₚ [1; 2; 3; 4; 5].
Proof.
  split; [apply lcg_good_seed|].
  apply (shuffle_is_a_permutation (H := lcg_rng) [1; 2; 3; 4; 5] 42).
  apply lcg_good_seed.
Defined.

Lemma createDeck_NoDup : NoDup createDeck.
Proof. apply (bool_decide_unpack (NoDup createDeck)). vm_compute. exact I. Qed.

Lemma createDeck_in_range : Forall in_range createDeck.
Proof. repeat constructor; vm_compute; intuition discriminate. Qed.

Lemma createDeck_counts :
  length createDeck = 44%nat
  /\ count_type monster createDeck = 26%nat
  /\ count_type weapon_t createDeck = 9%nat
  /\ count_type potion createDeck = 9%nat.
Proof. vm_compute. repeat split. Qed.

(** [reset], written as the one record it builds. *)
Lemma reset_eq `{SeededRng} (seed : option Z) (now : Z) (prior : Game) :
  reset seed now prior
  = let z := match seed with Some z => z | None => now end in
    mkGame z 20 20 0 (shuffle createDeck z) [] [] None true None false []
      false false None [mkEvent "Game started! Good luck, Scoundrel." info].
Proof. reflexivity. Qed.

(** The deck [reset] leaves is a rearrangement of [createDeck]; the other
    fields are constants. *)
Lemma reset_deck `{SeededRng} (seed now : Z) (prior : Game) :
  let s := reset (Some seed) now prior in
  deck s ≡ₚ createDeck /\ length (deck s) = 44%nat
  /\ s = mkGame seed 20 20 0 (deck s) [] [] None true None false [] false
           false None [mkEvent "Game started! Good luck, Scoundrel." info].
Proof.
  cbv zeta. rewrite reset_eq. cbv zeta.
  generalize (shuffle_perm createDeck seed).
  generalize (shuffle createDeck seed). intros d Hperm. cbn [deck].
  split; [exact Hperm|]. split; [|reflexivity].
  rewrite Hperm. apply createDeck_counts.
Qed.

(** X2. [reset] with a good seed deals the 44 cards of [createDeck], each
    once, in some order: 26 monsters valued 2 to 14, 9 weapons and 9
    potions valued 2 to 10.  Whatever the game was before, it starts with
    20 health out of 20, turn 0, an empty room and discard pile, no weapon,
    nothing carried or selected, [canAvoid] set, and a log of one entry. *)
Theorem reset_deals_the_deck `{SeededRng} (seed now : Z) (prior : Game) :
  good_seed seed ->
  let s := reset (Some seed) now prior in
  deck s ≡ₚ createDeck
  /\ NoDup (deck s) /\ Forall in_range (deck s)
  /\ length (deck s) = 44%nat
  /\ count_type monster (deck s) = 26%nat
  /\ count_type weapon_t (deck s) = 9%nat
  /\ count_type potion (deck s) = 9%nat
  /\ s = mkGame seed 20 20 0 (deck s) [] [] None true None false [] false
           false None [mkEvent "Game started! Good luck, Scoundrel." info].
Proof.
  intros Hgood s. subst s.
  destruct (reset_deck seed now prior) as (Hperm & _ & Heq). cbv zeta in *.
  revert Hperm Heq. generalize (reset (Some seed) now prior).
  intros s Hperm Heq.
  destruct createDeck_counts as (Hlen & Hm & Hw & Hp).
  unfold count_type in *.
  split; [exact Hperm|].
  split; [rewrite Hperm; apply createDeck_NoDup|].
  split; [rewrite Hperm; apply createDeck_in_range|].
  split; [rewrite Hperm; exact Hlen|].
  split; [rewrite Hperm; exact Hm|].
  split; [rewrite Hperm; exact Hw|].
  split; [rewrite Hperm; exact Hp|].
  exact Heq.
Qed.

Lemma reset_deals_the_deck_witness :
  let s := reset (H := lcg_rng) (Some 42) 0 blank in
  good_seed (H := lcg_rng) 42 /\ length (deck s) = 44%nat /\ NoDup (deck s).
Proof.
  intros s. split; [apply lcg_good_seed|].
  destruct (reset_deals_the_deck (H := lcg_rng) 42 0 blank (lcg_good_seed 42))
    as (_ & Hnodup & _ & Hlen & _).
  split; assumption.
Defined.

(** ** The log and the turn counter *)

Ltac fields :=
  cbn [seed health maxHealth turn deck discard room weapon canAvoid
       roomCarriedCard potionUsedThisTurn selectedCards gameOver gameWon
       defeatingCard eventLog
       set_health set_turn set_deck set_discard set_room set_weapon
       set_canAvoid set_roomCarriedCard set_potionUsedThisTurn
       set_selectedCards set_gameOver set_gameWon set_defeatingCard
       set_eventLog logEvent fst snd].

Ltac appended :=
  unfold appends; fields; repeat split;
  first [reflexivity | lia | repeat apply prefix_app_r; reflexivity].

Lemma appends_refl s : appends s s.
Proof. appended. Qed.

Lemma appends_trans s1 s2 s3 : appends s1 s2 -> appends s2 s3 -> appends s1 s3.
Proof.
  intros (Hs1 & Hm1 & Hl1 & Ht1) (Hs2 & Hm2 & Hl2 & Ht2).
  repeat split; [congruence|congruence|etrans; eassumption|lia].
Qed.

Lemma endGame_appends won s :
  appends s (endGame won s) /\ turn (endGame won s) = turn s.
Proof. unfold endGame. destruct won; split; appended. Qed.

Lemma resolveWeapon_appends card s :
  appends s (resolveWeapon card s) /\ turn (resolveWeapon card s) = turn s.
Proof. unfold resolveWeapon. destruct (weapon s); split; appended. Qed.

Lemma resolvePotion_appends card s :
  appends s (resolvePotion card s) /\ turn (resolvePotion card s) = turn s.
Proof. unfold resolvePotion. destruct (potionUsedThisTurn s); split; appended. Qed.

Lemma fightMonster_appends card s :
  appends s (fightMonster card s).2 /\ turn (fightMonster card s).2 = turn s.
Proof.
  unfold fightMonster.
  destruct (weapon s) as [w|]; [destruct (canUseWeapon card w)|]; split; appended.
Qed.

Lemma takeDamage_appends card d s :
  appends s (takeDamage card d s) /\ turn (takeDamage card d s) = turn s.
Proof.
  unfold takeDamage. destruct (0 <? d); [|split; appended].
  cbv zeta. destruct (_ <=? 0); [|split; appended].
  destruct (endGame_appends false
              (set_defeatingCard (Some card) (set_health (health s - d) s)))
    as [Ha Ht].
  split; [|rewrite Ht; reflexivity].
  eapply appends_trans; [|exact Ha]. appended.
Qed.

Lemma resolveCard_appends card s :
  appends s (resolveCard card s) /\ turn (resolveCard card s) = turn s.
Proof.
  unfold resolveCard. destruct (getCardType card).
  - unfold resolveMonster.
    destruct (fightMonster_appends card s) as [Ha Ht].
    destruct (takeDamage_appends card (fightMonster card s).1 (fightMonster card s).2)
      as [Ha' Ht'].
    split; [eapply appends_trans; eassumption|congruence].
  - apply resolveWeapon_appends.
  - apply resolvePotion_appends.
  - split; [apply appends_refl|reflexivity].
Qed.

Lemma fillRoom_appends s :
  appends s (fillRoom s) /\ turn (fillRoom s) = turn s + 1.
Proof.
  unfold fillRoom. destruct s as [? ? ? ? ? ? ? ? ? [x|] ? ? ? ? ? ?];
    cbn -[drawUntilFull]; split; appended.
Qed.

Lemma avoidRoom_unfold (s : Game) :
  canAvoid s = true -> gameOver s = false -> length (room s) = 4%nat ->
  avoidRoom s = (true, (drawRoom (putBack s)).2).
Proof. intros Ha Hg Hr. unfold avoidRoom. rewrite Ha, Hg, Hr. reflexivity. Qed.

Lemma set_roomCarriedCard_same s : set_roomCarriedCard (roomCarriedCard s) s = s.
Proof. destruct s; reflexivity. Qed.

Lemma faceRoom_unfold (s : Game) :
  length (selectedCards s) = 3%nat -> gameOver s = false ->
  faceRoom s
  = match resolveSelected (selectedCards s) s with
    | Some t =>
        Some (true, if gameOver t then leaveRoom (carriedAfter t) t
                    else (drawRoom (leaveRoom (carriedAfter t) t)).2)
    | None => None
    end.
Proof.
  intros Hsel Hgo. unfold faceRoom. rewrite Hsel, Hgo. cbn [Nat.eqb negb orb].
  destruct (resolveSelected (selectedCards s) s) as [t|]; [|reflexivity].
  unfold carriedAfter.
  destruct (carriedIndex (selectedCards t)); [reflexivity|].
  unfold leaveRoom. rewrite set_roomCarriedCard_same. reflexivity.
Qed.

Lemma drawRoom_appends s :
  gameOver s = false ->
  appends s (drawRoom s).2 /\ turn (drawRoom s).2 = turn s + 1.
Proof.
  intros Hgo. rewrite (drawRoom_unfold s Hgo).
  destruct (fillRoom_appends s) as [Ha Ht]. revert Ha Ht.
  generalize (fillRoom s) as t. intros t Ha Ht.
  destruct ((length (room t) <? 4)%nat && (length (deck t) =? 0)%nat)%bool;
    cbn [snd].
  - destruct (endGame_appends true t) as [Ha' Ht'].
    split; [eapply appends_trans; eassumption|congruence].
  - split; [eapply appends_trans; [exact Ha|appended]|exact Ht].
Qed.

(** A card that ends the game ends it as a loss. *)
Lemma resolveCard_ends_lost card s :
  gameOver s = false -> gameOver (resolveCard card s) = true ->
  gameWon (resolveCard card s) = false.
Proof.
  intros Hgo. unfold resolveCard. destruct (getCardType card).
  - unfold resolveMonster, takeDamage.
    assert (Hf : gameOver (fightMonster card s).2 = false).
    { unfold fightMonster.
      destruct (weapon s) as [w|]; [destruct (canUseWeapon card w)|]; exact Hgo. }
    revert Hf. generalize (fightMonster card s). intros [d t] Hf. cbn [fst snd] in *.
    destruct (0 <? d); [|congruence]. cbv zeta.
    destruct (_ <=? 0); [intros _; reflexivity|]. fields. congruence.
  - unfold resolveWeapon. destruct (weapon s); fields; congruence.
  - unfold resolvePotion. destruct (potionUsedThisTurn s); fields; congruence.
  - congruence.
Qed.

Lemma resolveSelected_appends indices s t :
  resolveSelected indices s = Some t ->
  appends s t /\ turn t = turn s /\ untouched s t
  /\ (gameOver s = false -> gameOver t = true -> gameWon t = false).
Proof.
  revert s. induction indices as [|index rest IH]; intros s Hrun;
    cbn [resolveSelected] in Hrun.
  - injection Hrun as Hrun. subst t.
    split; [apply appends_refl|]. split; [reflexivity|].
    split; [apply untouched_refl|congruence].
  - destruct (js_get (room s) index) as [card|]; [|discriminate].
    destruct (resolveCard_appends card s) as [Ha Ht].
    pose proof (resolveCard_untouched card s) as Hu.
    pose proof (resolveCard_ends_lost card s) as He.
    revert Hrun Ha Ht Hu He. generalize (resolveCard card s) as s1.
    intros s1 Hrun Ha Ht Hu He.
    destruct (gameOver s1) eqn:Hg1.
    + injection Hrun as Hrun. subst t.
      split; [exact Ha|]. split; [exact Ht|]. split; [exact Hu|].
      intros Hgo _. apply He; [exact Hgo|reflexivity].
    + destruct (IH s1 Hrun) as (Ha' & Ht' & Hu' & He').
      split; [eapply appends_trans; eassumption|].
      split; [congruence|].
      split; [eapply untouched_trans; eassumption|].
      intros _. apply He'. exact Hg1.
Qed.

Lemma leaveRoom_appends c s :
  appends s (leaveRoom c s) /\ turn (leaveRoom c s) = turn s.
Proof. unfold leaveRoom. split; appended. Qed.

Lemma drawRoom_not_lost s : gameOver s = false -> lost (drawRoom s).2 = false.
Proof.
  intros Hgo. rewrite (drawRoom_unfold s Hgo).
  destruct (fillRoom_fields s) as (_ & _ & _ & _ & _ & _ & _ & _ & Hg & _).
  rewrite Hgo in Hg. revert Hg. generalize (fillRoom s) as t. intros t Hg.
  destruct ((length (room t) <? 4)%nat && (length (deck t) =? 0)%nat)%bool;
    cbn [snd]; unfold lost.
  - reflexivity.
  - fields. rewrite Hg. reflexivity.
Qed.

(** Each operation, as far as seed, [maxHealth], log and turn go. *)
Lemma perform_appends op s b s' :
  perform op s = Some (b, s') ->
  appends s s' /\ turn s' = turn s + (if drew op s b s' then 1 else 0).
Proof.
  unfold drew. destruct op as [| |index|]; cbn [perform]; intros Hp.
  - injection Hp as Hp. assert (Hs : s' = (drawRoom s).2) by (rewrite Hp; reflexivity).
    subst s'. destruct (gameOver s) eqn:Hgo; cbn [negb andb].
    + unfold drawRoom. rewrite Hgo. split; [apply appends_refl|cbn [snd]; lia].
    + apply (drawRoom_appends s Hgo).
  - destruct (canAvoid s) eqn:Ha; [destruct (gameOver s) eqn:Hg;
      [|destruct (decide (length (room s) = 4%nat)) as [Hr|Hr]]|].
    + rewrite avoidRoom_refused in Hp by auto. injection Hp as <- <-.
      split; [apply appends_refl|cbn [negb andb]; lia].
    + rewrite (avoidRoom_unfold s Ha Hg Hr) in Hp. injection Hp as <- <-.
      destruct (drawRoom_appends (putBack s) Hg) as [Hd Ht].
      split; [eapply appends_trans; [|exact Hd]; unfold putBack; appended|].
      cbn [negb andb]. rewrite Ht. reflexivity.
    + rewrite avoidRoom_refused in Hp by auto. injection Hp as <- <-.
      split; [apply appends_refl|cbn [negb andb]; lia].
    + rewrite avoidRoom_refused in Hp by auto. injection Hp as <- <-.
      split; [apply appends_refl|rewrite andb_false_r; lia].
  - rewrite andb_false_r.
    injection Hp as Hp. assert (Hs : s' = (selectCard index s).2) by (rewrite Hp; reflexivity).
    subst s'. clear Hp. unfold selectCard.
    destruct (gameOver s || _)%bool; [split; [apply appends_refl|cbn [snd]; lia]|].
    destruct (indexOf (selectedCards s) index); [split; appended|].
    destruct (length (selectedCards s) <? 3)%nat; split; appended.
  - destruct (decide (length (selectedCards s) = 3%nat)) as [Hsel|Hsel];
      [destruct (gameOver s) eqn:Hgo|].
    + unfold faceRoom in Hp. rewrite Hgo, orb_true_r in Hp. injection Hp as <- <-.
      split; [apply appends_refl|cbn [negb andb]; lia].
    + rewrite (faceRoom_unfold s Hsel Hgo) in Hp.
      destruct (resolveSelected (selectedCards s) s) as [t|] eqn:Hrun; [|discriminate].
      destruct (resolveSelected_appends _ _ _ Hrun) as (Ha & Ht & _ & Hlost).
      destruct (leaveRoom_appends (carriedAfter t) t) as [Hl Hlt].
      injection Hp as <- <-. cbn [negb andb]. destruct (gameOver t) eqn:Hgt.
      * split; [eapply appends_trans; [exact Ha|exact Hl]|].
        unfold lost, leaveRoom. fields.
        rewrite Hgt, (Hlost Hgo eq_refl). cbn [negb andb].
        unfold leaveRoom in Hlt. lia.
      * destruct (drawRoom_appends (leaveRoom (carriedAfter t) t) Hgt) as [Hd Hdt].
        split.
        { eapply appends_trans; [exact Ha|].
          eapply appends_trans; [exact Hl|exact Hd]. }
        rewrite (drawRoom_not_lost (leaveRoom (carriedAfter t) t) Hgt).
        cbn [negb]. lia.
    + unfold faceRoom in Hp.
      destruct (Nat.eqb_spec (length (selectedCards s)) 3); [contradiction|].
      injection Hp as <- <-. split; [apply appends_refl|rewrite andb_false_r; lia].
Qed.

(** X3. No operation rewrites history: in every state the driver can reach
    from [s0], the seed and [maxHealth] are those of [s0], the log of [s0]
    is a prefix of the log, and the turn counter is not below that of
    [s0]. *)
Theorem log_only_grows (s0 s : Game) :
  reachable s0 s ->
  seed s = seed s0 /\ maxHealth s = maxHealth s0
  /\ eventLog s0 `prefix_of` eventLog s /\ turn s0 <= turn s.
Proof.
  intros Hreach. change (appends s0 s).
  induction Hreach as [|s op b s' _ IH Hp]; [apply appends_refl|].
  eapply appends_trans; [exact IH|]. apply (perform_appends op s b s' Hp).
Qed.

(** X4. The turn counter counts the rooms drawn.  An operation adds one
    to [turn] when it draws: [drawRoom] on a game not over (also when that
    draw wins the game), an [avoidRoom] that goes through, a [faceRoom]
    that goes through unless a monster ends the game.  In every other
    case, refused calls and [selectCard] included, [turn] stays. *)
Theorem turn_counts_rooms (op : Op) (s s' : Game) (b : bool) :
  perform op s = Some (b, s') ->
  turn s' = turn s + (if drew op s b s' then 1 else 0).
Proof. intros Hp. apply (perform_appends op s b s' Hp). Qed.

Lemma log_only_grows_witness :
  exists s,
    reachable carry_room s
    /\ eventLog carry_room `prefix_of` eventLog s /\ turn carry_room <= turn s
    /\ length (eventLog s) = 5%nat.
Proof.
  assert (Hstep : exists s, perform FaceRoom carry_room = Some (true, s)
                            /\ length (eventLog s) = 5%nat).
  { eexists. split; vm_compute; reflexivity. }
  destruct Hstep as (s & Hp & Hlen). exists s.
  assert (Hreach : reachable carry_room s)
    by (eapply reach_step; [apply reach_start|exact Hp]).
  split; [exact Hreach|].
  destruct (log_only_grows carry_room s Hreach) as (_ & _ & Hlog & Hturn).
  repeat split; assumption.
Defined.

Lemma turn_counts_rooms_witness :
  exists s', perform FaceRoom carry_room = Some (true, s') /\ turn s' = 2.
Proof.
  eexists. split; [vm_compute; reflexivity|].
  match goal with
  | |- turn ?x = _ => rewrite (turn_counts_rooms FaceRoom carry_room x true)
  end; vm_compute; reflexivity.
Defined.

(** ** Selecting cards *)

Lemma js_get_is_Some {A} (array : list A) (index : Z) :
  is_Some (js_get array index) <-> 0 <= index < Z.of_nat (length array).
Proof.
  unfold js_get. destruct (Z.ltb_spec index 0) as [Hneg|Hpos].
  - split; [intros [? ?]; discriminate|lia].
  - rewrite lookup_lt_is_Some. lia.
Qed.

Lemma indexOf_None (array : list Z) (x : Z) :
  indexOf array x = None <-> x ∉ array.
Proof.
  induction array as [|y rest IH]; cbn [indexOf].
  - split; [intros _; apply not_elem_of_nil|reflexivity].
  - rewrite not_elem_of_cons. destruct (Z.eqb_spec y x) as [->|Hne].
    + split; [discriminate|intros [Hx _]; contradiction].
    + destruct (indexOf rest x); cbn [fmap option_fmap option_map].
      * split; [discriminate|]. intros [_ Hx]. apply IH in Hx. discriminate.
      * split; [|reflexivity]. intros _. split; [congruence|]. apply IH. reflexivity.
Qed.

Lemma indexOf_Some (array : list Z) (x : Z) (k : nat) :
  indexOf array x = Some k -> array !! k = Some x.
Proof.
  revert k. induction array as [|y rest IH]; intros k; cbn [indexOf]; [discriminate|].
  destruct (Z.eqb_spec y x) as [->|Hne].
  - intros [= <-]. reflexivity.
  - destruct (indexOf rest x) as [k'|]; cbn [fmap option_fmap option_map];
      [|discriminate].
    intros [= <-]. apply IH. reflexivity.
Qed.

Lemma indexOf_app_new (array : list Z) (x : Z) :
  x ∉ array -> indexOf (array ++ [x]) x = Some (length array).
Proof.
  induction array as [|y rest IH]; cbn [indexOf app length]; intros Hx.
  - rewrite Z.eqb_refl. reflexivity.
  - apply not_elem_of_cons in Hx as [Hne Hx].
    destruct (Z.eqb_spec y x); [congruence|]. rewrite IH by exact Hx. reflexivity.
Qed.

Lemma delete_last {A} (l : list A) (x : A) : delete (length l) (l ++ [x]) = l.
Proof.
  induction l as [|y l IH]; cbn [length app]; [reflexivity|].
  cbn [delete list_delete]. f_equal. exact IH.
Qed.

Lemma NoDup_delete_gone (l : list Z) (k : nat) (x : Z) :
  NoDup l -> l !! k = Some x -> x ∉ delete k l.
Proof.
  intros Hnd Hk Hin.
  apply (delete_Permutation l k x) in Hk as Hperm.
  rewrite Hperm in Hnd. apply NoDup_cons in Hnd as [Hnot _]. contradiction.
Qed.

Lemma set_selectedCards_same s : set_selectedCards (selectedCards s) s = s.
Proof. destruct s; reflexivity. Qed.

Lemma set_selectedCards_twice l l' s :
  set_selectedCards l (set_selectedCards l' s) = set_selectedCards l s.
Proof. reflexivity. Qed.

(** X5. [selectCard] on a slot of the room, game on, is a toggle.  A slot
    not yet selected is appended to the selection when fewer than 3 are
    selected, and selecting it again gives back the state as it was.  With
    3 selected, a fourth is ignored, though the call still returns [true].
    A selected slot is taken out of the selection, the others keeping
    their order. *)
Theorem selectCard_toggles (index : Z) (s : Game) :
  gameOver s = false -> 0 <= index < Z.of_nat (length (room s)) ->
  (index ∉ selectedCards s -> (length (selectedCards s) < 3)%nat ->
     let s1 := set_selectedCards (selectedCards s ++ [index]) s in
     selectCard index s = (true, s1) /\ selectCard index s1 = (true, s))
  /\ (index ∉ selectedCards s -> (3 <= length (selectedCards s))%nat ->
      selectCard index s = (true, s))
  /\ (index ∈ selectedCards s -> NoDup (selectedCards s) ->
      exists k, selectedCards s !! k = Some index
                /\ selectCard index s
                   = (true, set_selectedCards (delete k (selectedCards s)) s)
                /\ index ∉ delete k (selectedCards s)).
Proof.
  intros Hgo Hslot.
  assert (Hcard : bool_decide (is_Some (js_get (room s) index)) = true)
    by (apply bool_decide_eq_true, js_get_is_Some, Hslot).
  split; [|split].
  - intros Hnew Hfew s1.
    assert (Hfirst : selectCard index s = (true, s1)).
    { unfold selectCard. rewrite Hgo, Hcard. cbn [negb orb].
      apply indexOf_None in Hnew as ->.
      destruct (Nat.ltb_spec (length (selectedCards s)) 3); [reflexivity|lia]. }
    split; [exact Hfirst|].
    unfold selectCard. subst s1. fields. rewrite Hgo, Hcard. cbn [negb orb].
    rewrite (indexOf_app_new _ _ Hnew), delete_last, set_selectedCards_twice.
    rewrite set_selectedCards_same. reflexivity.
  - intros Hnew Hfull. unfold selectCard. rewrite Hgo, Hcard. cbn [negb orb].
    apply indexOf_None in Hnew as ->.
    destruct (Nat.ltb_spec (length (selectedCards s)) 3); [lia|reflexivity].
  - intros Hold Hnd.
    destruct (indexOf (selectedCards s) index) as [k|] eqn:Hk.
    + exists k. pose proof (indexOf_Some _ _ _ Hk) as Hat.
      split; [exact Hat|]. split; [|eapply NoDup_delete_gone; eassumption].
      unfold selectCard. rewrite Hgo, Hcard, Hk. reflexivity.
    + apply indexOf_None in Hk. contradiction.
Qed.

Lemma selectCard_toggles_witness :
  selectCard 1 full_room = (true, set_selectedCards [1] full_room)
  /\ selectCard 1 (set_selectedCards [1] full_room) = (true, full_room).
Proof.
  destruct (selectCard_toggles 1 full_room) as (Hnew & _); [reflexivity|cbn; lia|].
  apply Hnew; [apply not_elem_of_nil|cbn; lia].
Defined.

(** ** The shape of a game in progress *)

Lemma fillRoom_room_length (s : Game) :
  (length (room (fillRoom s)) <= 4)%nat
  /\ (deck (fillRoom s) <> [] -> length (room (fillRoom s)) = 4%nat).
Proof.
  destruct (fillRoom_cards s) as [Hroom Hdeck]. rewrite Hroom, Hdeck.
  rewrite length_app, length_take.
  assert (Hc : (length (option_list (roomCarriedCard s)) <= 1)%nat)
    by (destruct (roomCarriedCard s); cbn; lia).
  split; [lia|]. intros Hrest.
  assert (Hlong : (4 - length (option_list (roomCarriedCard s)) < length (deck s))%nat).
  { destruct (Nat.lt_ge_cases (4 - length (option_list (roomCarriedCard s)))
                (length (deck s))) as [|Hshort]; [assumption|].
    rewrite drop_ge in Hrest by exact Hshort. contradiction. }
  lia.
Qed.

Lemma selection_ok_empty s : selectedCards s = [] -> selection_ok s.
Proof.
  intros Hsel. unfold selection_ok. rewrite Hsel.
  split; [apply NoDup_nil_2|]. split; [apply Forall_nil_2|cbn; lia].
Qed.

Lemma drawRoom_shape (s : Game) :
  gameOver s = false -> room_ok (drawRoom s).2 /\ selection_ok (drawRoom s).2.
Proof.
  intros Hgo.
  destruct (drawRoom_fill s Hgo) as (Hr & Hd & _ & _ & _ & Hsel & _ & _ & _ & _ & Hon).
  cbv zeta in *. destruct (fillRoom_room_length s) as [Hle Hfull].
  split; [|apply selection_ok_empty, Hsel].
  unfold room_ok. rewrite Hr in *. rewrite Hd in Hon.
  split; [exact Hle|]. intros Hgo'. right.
  destruct (Hon Hgo') as [|Hrest]; [assumption|apply Hfull, Hrest].
Qed.

Lemma selectCard_shape (index : Z) (s : Game) :
  selection_ok s ->
  selection_ok (selectCard index s).2
  /\ set_selectedCards (selectedCards s) (selectCard index s).2 = s.
Proof.
  intros (Hnd & Hin & Hlen). unfold selectCard.
  destruct (gameOver s || negb (bool_decide (is_Some (js_get (room s) index))))%bool
    eqn:Hrefuse; cbn [snd].
  { split; [repeat split; assumption|apply set_selectedCards_same]. }
  apply orb_false_iff in Hrefuse as [_ Hcard].
  apply negb_false_iff, bool_decide_eq_true, js_get_is_Some in Hcard.
  destruct (indexOf (selectedCards s) index) as [k|] eqn:Hk; cbn [snd].
  - split; [|rewrite set_selectedCards_twice; apply set_selectedCards_same].
    unfold selection_ok. fields.
    pose proof (sublist_delete (selectedCards s) k) as Hsub.
    split; [eapply sublist_NoDup; eassumption|].
    split; [apply Forall_delete, Hin|].
    apply sublist_length in Hsub. lia.
  - apply indexOf_None in Hk.
    destruct (Nat.ltb_spec (length (selectedCards s)) 3) as [Hfew|Hfull]; cbn [snd].
    + split; [|rewrite set_selectedCards_twice; apply set_selectedCards_same].
      unfold selection_ok. fields.
      split; [apply NoDup_app; repeat split;
              [assumption| |apply NoDup_singleton]|].
      { intros x Hx Hx'. apply list_elem_of_singleton in Hx'. subst x. contradiction. }
      split; [apply Forall_app; split; [assumption|apply Forall_singleton, Hcard]|].
      rewrite length_app. cbn. lia.
    + split; [repeat split; assumption|apply set_selectedCards_same].
Qed.

(** With a sound selection the loop of [faceRoom] finds every card it asks
    for. *)
Lemma resolveSelected_runs (indices : list Z) (s : Game) :
  Forall (fun i => 0 <= i < Z.of_nat (length (room s))) indices ->
  is_Some (resolveSelected indices s).
Proof.
  revert s. induction indices as [|index rest IH]; intros s Hin;
    cbn [resolveSelected]; [eauto|].
  apply Forall_cons in Hin as [Hindex Hrest].
  destruct (proj2 (js_get_is_Some (room s) index) Hindex) as [card ->].
  destruct (gameOver (resolveCard card s)); [eauto|].
  apply IH. rewrite resolveCard_room. exact Hrest.
Qed.

Lemma perform_shape op s :
  room_ok s -> selection_ok s ->
  exists b s', perform op s = Some (b, s') /\ room_ok s' /\ selection_ok s'.
Proof.
  intros Hroom Hsel. destruct op as [| |index|]; cbn [perform].
  - exists (drawRoom s).1, (drawRoom s).2. split; [destruct (drawRoom s); reflexivity|].
    destruct (gameOver s) eqn:Hgo; [|apply (drawRoom_shape s Hgo)].
    unfold drawRoom. rewrite Hgo. auto.
  - exists (avoidRoom s).1, (avoidRoom s).2. split; [destruct (avoidRoom s); reflexivity|].
    destruct (canAvoid s) eqn:Ha; [destruct (gameOver s) eqn:Hg;
      [|destruct (decide (length (room s) = 4%nat)) as [Hr|Hr]]|];
      try (rewrite avoidRoom_refused by auto; auto).
    rewrite (avoidRoom_unfold s Ha Hg Hr). cbn [snd].
    assert (Hg' : gameOver (putBack s) = false) by exact Hg.
    revert Hg'. generalize (putBack s). intros p Hg'. apply (drawRoom_shape p Hg').
  - exists (selectCard index s).1, (selectCard index s).2.
    split; [destruct (selectCard index s); reflexivity|].
    split; [|apply (selectCard_shape index s Hsel)].
    destruct (selectCard_shape index s Hsel) as [_ Heq].
    revert Heq. generalize (selectCard index s).2. intros s' Heq.
    rewrite <- Heq in Hroom. exact Hroom.
  - destruct (decide (length (selectedCards s) = 3%nat)) as [H3|H3];
      [destruct (gameOver s) eqn:Hgo|].
    + exists false, s. unfold faceRoom. rewrite Hgo, orb_true_r. auto.
    + rewrite (faceRoom_unfold s H3 Hgo).
      destruct (resolveSelected_runs (selectedCards s) s) as [t Hrun]; [apply Hsel|].
      rewrite Hrun. eexists _, _. split; [reflexivity|].
      destruct (gameOver t) eqn:Hgt.
      * split; [|apply selection_ok_empty; reflexivity].
        unfold room_ok, leaveRoom. fields. split; [cbn [length]; lia|auto].
      * assert (Hgl : gameOver (leaveRoom (carriedAfter t) t) = false) by exact Hgt.
        revert Hgl. generalize (leaveRoom (carriedAfter t) t). intros l Hgl.
        apply (drawRoom_shape l Hgl).
    + exists false, s. unfold faceRoom.
      destruct (Nat.eqb_spec (length (selectedCards s)) 3); [contradiction|auto].
Qed.


(** X6. A game that starts with a sound room and selection, as [reset]
    leaves it, keeps them whatever the driver calls: the room never holds
    more than 4 cards and is empty or full while the game is on, the
    selection names at most 3 distinct slots of the room, and no operation
    raises. *)
Theorem play_never_raises (s0 s : Game) (op : Op) :
  room_ok s0 -> selection_ok s0 -> reachable s0 s ->
  (length (room s) <= 4)%nat
  /\ (gameOver s = false -> room s = [] \/ length (room s) = 4%nat)
  /\ NoDup (selectedCards s)
  /\ Forall (fun i => 0 <= i < Z.of_nat (length (room s))) (selectedCards s)
  /\ (length (selectedCards s) <= 3)%nat
  /\ is_Some (perform op s).
Proof.
  intros Hroom Hsel Hreach.
  assert (Hinv : room_ok s /\ selection_ok s).
  { induction Hreach as [|s op' b s' _ IH Hp]; [auto|].
    destruct IH as [Hr Hs].
    destruct (perform_shape op' s Hr Hs) as (b' & s'' & Hp' & Hshape).
    rewrite Hp in Hp'. injection Hp' as _ <-. exact Hshape. }
  destruct Hinv as [[Hlen Hfull] (Hnd & Hin & Hfew)].
  repeat (split; [assumption|]).
  destruct (perform_shape op s) as (b & s' & Hp & _); [split|repeat split|];
    try assumption.
  rewrite Hp. eauto.
Qed.

Lemma play_never_raises_witness :
  let s := set_selectedCards [0; 1; 3] full_room in
  room_ok full_room /\ selection_ok full_room
  /\ reachable full_room s /\ is_Some (perform FaceRoom s).
Proof.
  intros s.
  assert (Hr : room_ok full_room).
  { unfold room_ok. cbn [room full_room table length]. split; [lia|auto]. }
  assert (Hs : selection_ok full_room) by (apply selection_ok_empty; reflexivity).
  assert (Hreach : reachable full_room s).
  { apply (reach_step _ (set_selectedCards [0; 1] full_room) (SelectCard 3) true);
      [|reflexivity].
    apply (reach_step _ (set_selectedCards [0] full_room) (SelectCard 1) true);
      [|reflexivity].
    apply (reach_step _ full_room (SelectCard 0) true); [|reflexivity].
    apply reach_start. }
  repeat (split; [assumption|]).
  apply (play_never_raises full_room s FaceRoom Hr Hs Hreach).
Defined.

(** ** Health *)

Lemma createDeck_cards :
  Forall (fun c => in_range c
                   /\ (getCardType c = weapon_t -> c = weaponToken (value c)))
    createDeck.
Proof.
  repeat constructor; vm_compute; try (intuition discriminate);
    intros; first [reflexivity|discriminate].
Qed.

Lemma deck_card_value (c : Card) : c ∈ createDeck -> 2 <= value c <= 14.
Proof.
  intros Hin. pose proof createDeck_cards as Hall.
  rewrite Forall_forall in Hall. destruct (Hall c Hin) as [Hr _].
  unfold in_range in Hr. destruct (getCardType c); lia.
Qed.

Lemma fightMonster_flags card s :
  health (fightMonster card s).2 = health s
  /\ maxHealth (fightMonster card s).2 = maxHealth s
  /\ gameOver (fightMonster card s).2 = gameOver s
  /\ gameWon (fightMonster card s).2 = gameWon s.
Proof.
  unfold fightMonster.
  destruct (weapon s) as [w|]; [destruct (canUseWeapon card w)|]; repeat split.
Qed.

Lemma takeDamage_health_ok card d s : health_ok s -> health_ok (takeDamage card d s).
Proof.
  intros Hok. pose proof Hok as (Hmax & Hle & Hzero). unfold takeDamage.
  destruct (Z.ltb_spec 0 d) as [Hd|Hd]; [|exact Hok].
  cbv zeta. fields. destruct (Z.leb_spec (health s - d) 0) as [Hdead|Halive].
  - unfold health_ok, endGame. fields.
    split; [assumption|]. split; [lia|]. intros _. split; reflexivity.
  - unfold health_ok. fields.
    split; [assumption|]. split; [lia|]. intros Hlow. lia.
Qed.

Lemma resolveCard_health_ok card s :
  0 <= value card -> health_ok s -> health_ok (resolveCard card s).
Proof.
  intros Hv Hok. unfold resolveCard. destruct (getCardType card).
  - unfold resolveMonster. apply takeDamage_health_ok.
    destruct (fightMonster_flags card s) as (Hh & Hm & Hg & Hw).
    unfold health_ok. rewrite Hh, Hm, Hg, Hw. exact Hok.
  - unfold resolveWeapon. destruct (weapon s); exact Hok.
  - pose proof Hok as (Hmax & Hle & Hzero).
    unfold resolvePotion. destruct (potionUsedThisTurn s); [exact Hok|].
    unfold health_ok; fields.
    split; [assumption|]. split; [lia|]. intros Hlow. apply Hzero. lia.
  - exact Hok.
Qed.

Lemma js_get_elem_of {A} (array : list A) (index : Z) (x : A) :
  js_get array index = Some x -> x ∈ array.
Proof.
  unfold js_get. destruct (index <? 0); [discriminate|].
  apply list_elem_of_lookup_2.
Qed.

Lemma resolveSelected_health_ok indices s t :
  Forall (fun c => c ∈ createDeck) (room s) -> health_ok s ->
  resolveSelected indices s = Some t -> health_ok t.
Proof.
  revert s. induction indices as [|index rest IH]; intros s Hroom Hok Hrun;
    cbn [resolveSelected] in Hrun.
  - injection Hrun as <-. exact Hok.
  - destruct (js_get (room s) index) as [card|] eqn:Hget; [|discriminate].
    assert (Hv : 0 <= value card).
    { apply js_get_elem_of in Hget. rewrite Forall_forall in Hroom.
      pose proof (deck_card_value card (Hroom card Hget)). lia. }
    pose proof (resolveCard_health_ok card s Hv Hok) as Hok1.
    pose proof (resolveCard_room card s) as Hr1.
    revert Hrun Hok1 Hr1. generalize (resolveCard card s). intros s1 Hrun Hok1 Hr1.
    destruct (gameOver s1); [injection Hrun as <-; exact Hok1|].
    apply (IH s1); [rewrite Hr1; exact Hroom|exact Hok1|exact Hrun].
Qed.

Lemma drawRoom_health_ok s :
  gameOver s = false -> health_ok s -> health_ok (drawRoom s).2.
Proof.
  intros Hgo (Hmax & Hle & Hzero). rewrite (drawRoom_unfold s Hgo).
  destruct (fillRoom_fields s) as (Hh & Hm & _ & _ & _ & _ & _ & _ & Hg & Hw & _).
  revert Hh Hm Hg Hw. generalize (fillRoom s). intros t Hh Hm Hg Hw.
  assert (Hpos : 0 < health s).
  { destruct (Z.lt_ge_cases 0 (health s)) as [|Hlow]; [assumption|].
    destruct Hzero as [Hover _]; [lia|congruence]. }
  destruct ((length (room t) <? 4)%nat && (length (deck t) =? 0)%nat)%bool;
    cbn [snd]; unfold health_ok, endGame; fields; rewrite ?Hh, ?Hm, ?Hg, ?Hw;
    (split; [assumption|]); (split; [assumption|]); intros Hlow; lia.
Qed.

Lemma cards_ok_parts (s : Game) :
  cards_ok s
  <-> Forall (fun c => c ∈ createDeck) (deck s)
      /\ Forall (fun c => c ∈ createDeck) (room s)
      /\ Forall (fun c => c ∈ createDeck) (option_list (roomCarriedCard s)).
Proof. unfold cards_ok. rewrite !Forall_app. reflexivity. Qed.

Lemma fillRoom_cards_ok s : cards_ok s -> cards_ok (fillRoom s).
Proof.
  rewrite !cards_ok_parts. intros (Hd & _ & Hc).
  destruct (fillRoom_cards s) as [Hroom Hdeck].
  destruct (fillRoom_fields s) as (_ & _ & _ & _ & _ & Hcarry & _).
  rewrite Hroom, Hdeck, Hcarry.
  split; [apply Forall_drop, Hd|].
  split; [apply Forall_app; split; [exact Hc|apply Forall_take, Hd]|].
  apply Forall_nil_2.
Qed.

Lemma drawRoom_cards_ok s : cards_ok s -> cards_ok (drawRoom s).2.
Proof.
  intros Hok. destruct (gameOver s) eqn:Hgo.
  - unfold drawRoom. rewrite Hgo. exact Hok.
  - destruct (drawRoom_fill s Hgo) as (Hr & Hd & _ & _ & Hc & _).
    apply fillRoom_cards_ok in Hok. rewrite cards_ok_parts in *.
    cbv zeta in *. rewrite Hr, Hd, Hc.
    destruct Hok as (? & ? & _). repeat split; try assumption. apply Forall_nil_2.
Qed.

Lemma putBack_cards_ok s : cards_ok s -> cards_ok (putBack s).
Proof.
  rewrite !cards_ok_parts. intros (Hd & Hr & _). unfold putBack. fields.
  split; [apply Forall_app; split; assumption|].
  split; apply Forall_nil_2.
Qed.

Lemma leaveRoom_cards_ok t : cards_ok t -> cards_ok (leaveRoom (carriedAfter t) t).
Proof.
  rewrite !cards_ok_parts. intros (Hd & Hr & Hc). unfold leaveRoom. fields.
  split; [exact Hd|]. split; [apply Forall_nil_2|].
  unfold carriedAfter. destruct (carriedIndex (selectedCards t)) as [i|]; [|exact Hc].
  destruct (js_get (room t) i) as [x|] eqn:Hget; [|apply Forall_nil_2].
  apply Forall_singleton. rewrite Forall_forall in Hr.
  apply Hr, (js_get_elem_of _ _ _ Hget).
Qed.

Lemma selectCard_frame index s :
  exists l, (selectCard index s).2 = set_selectedCards l s.
Proof.
  unfold selectCard.
  destruct (gameOver s || _)%bool;
    [exists (selectedCards s); symmetry; apply set_selectedCards_same|].
  destruct (indexOf (selectedCards s) index); [eexists; reflexivity|].
  destruct (length (selectedCards s) <? 3)%nat; [eexists; reflexivity|].
  exists (selectedCards s). symmetry. apply set_selectedCards_same.
Qed.

Lemma perform_health op s b s' :
  health_ok s -> cards_ok s -> perform op s = Some (b, s') ->
  health_ok s' /\ cards_ok s'.
Proof.
  intros Hh Hc. destruct op as [| |index|]; cbn [perform]; intros Hp.
  - injection Hp as Hp. assert (Hs : s' = (drawRoom s).2) by (rewrite Hp; reflexivity).
    subst s'. split; [|apply drawRoom_cards_ok, Hc].
    destruct (gameOver s) eqn:Hgo; [|apply (drawRoom_health_ok s Hgo Hh)].
    unfold drawRoom. rewrite Hgo. exact Hh.
  - destruct (canAvoid s) eqn:Ha; [destruct (gameOver s) eqn:Hg;
      [|destruct (decide (length (room s) = 4%nat)) as [Hr|Hr]]|];
      try (rewrite avoidRoom_refused in Hp by auto; injection Hp as <- <-; auto).
    rewrite (avoidRoom_unfold s Ha Hg Hr) in Hp. injection Hp as <- <-.
    assert (Hh' : health_ok (putBack s)) by exact Hh.
    assert (Hg' : gameOver (putBack s) = false) by exact Hg.
    apply putBack_cards_ok in Hc. revert Hh' Hg' Hc. generalize (putBack s).
    intros p Hh' Hg' Hc.
    split; [apply (drawRoom_health_ok p Hg' Hh')|apply drawRoom_cards_ok, Hc].
  - injection Hp as Hp. assert (Hs : s' = (selectCard index s).2) by (rewrite Hp; reflexivity).
    subst s'. destruct (selectCard_frame index s) as [l ->]. auto.
  - destruct (decide (length (selectedCards s) = 3%nat)) as [H3|H3];
      [destruct (gameOver s) eqn:Hgo|].
    + unfold faceRoom in Hp. rewrite Hgo, orb_true_r in Hp. injection Hp as <- <-. auto.
    + rewrite (faceRoom_unfold s H3 Hgo) in Hp.
      destruct (resolveSelected (selectedCards s) s) as [t|] eqn:Hrun; [|discriminate].
      injection Hp as <- <-.
      assert (Hht : health_ok t).
      { apply (resolveSelected_health_ok (selectedCards s) s t);
          [|exact Hh|exact Hrun].
        apply cards_ok_parts in Hc. apply Hc. }
      assert (Hct : cards_ok t).
      { destruct (resolveSelected_appends _ _ _ Hrun) as (_ & _ & Hu & _).
        destruct Hu as (Hr & Hd & _ & Hcarry & _).
        rewrite cards_ok_parts in *. rewrite Hr, Hd, Hcarry. exact Hc. }
      apply leaveRoom_cards_ok in Hct.
      assert (Hhl : health_ok (leaveRoom (carriedAfter t) t)) by exact Hht.
      assert (Hgl : gameOver (leaveRoom (carriedAfter t) t) = gameOver t)
        by reflexivity.
      revert Hct Hhl Hgl. generalize (leaveRoom (carriedAfter t) t).
      intros l Hct Hhl Hgl. destruct (gameOver t); [auto|].
      split; [apply (drawRoom_health_ok l Hgl Hhl)|apply drawRoom_cards_ok, Hct].
    + unfold faceRoom in Hp.
      destruct (Nat.eqb_spec (length (selectedCards s)) 3); [contradiction|].
      injection Hp as <- <-. auto.
Qed.

Lemma reset_health `{SeededRng} (seed now : Z) (prior : Game) :
  good_seed seed ->
  health_ok (reset (Some seed) now prior) /\ cards_ok (reset (Some seed) now prior).
Proof.
  intros Hgood.
  destruct (reset_deck seed now prior) as (Hperm & _ & Heq).
  cbv zeta in *. revert Hperm Heq. generalize (reset (Some seed) now prior).
  intros s Hperm Heq. rewrite Heq. clear Heq. split.
  - unfold health_ok. fields. split; [reflexivity|]. split; [lia|]. intros Hlow. lia.
  - apply cards_ok_parts. fields.
    split; [|split; apply Forall_nil_2].
    apply Forall_forall. intros c Hc. rewrite <- Hperm. exact Hc.
Qed.

(** X7. In every state reachable from [reset] with a good seed, [maxHealth]
    is 20 and health is at most 20; health is positive as long as the game
    is not over, and a health of 0 or less is found only in a game that is
    over and lost, where it is left as it fell. *)
Theorem health_within_bounds `{SeededRng} (seed now : Z) (prior s : Game) :
  good_seed seed ->
  reachable (reset (Some seed) now prior) s ->
  maxHealth s = 20 /\ health s <= 20
  /\ (gameOver s = false -> 0 < health s)
  /\ (health s <= 0 -> gameOver s = true /\ gameWon s = false).
Proof.
  intros Hgood Hreach.
  assert (Hinv : health_ok s /\ cards_ok s).
  { induction Hreach as [|s op b s' _ IH Hp]; [apply reset_health, Hgood|].
    destruct IH as [Hh Hc]. apply (perform_health op s b s' Hh Hc Hp). }
  destruct Hinv as [(Hmax & Hle & Hzero) _].
  split; [exact Hmax|]. split; [exact Hle|]. split; [|exact Hzero].
  intros Hgo. destruct (Z.lt_ge_cases 0 (health s)) as [|Hlow]; [assumption|].
  destruct Hzero as [Hover _]; [lia|congruence].
Qed.

Lemma health_within_bounds_witness :
  let s0 := reset (H := lcg_rng) (Some 42) 0 blank in
  good_seed (H := lcg_rng) 42
  /\ maxHealth (drawRoom s0).2 = 20 /\ health (drawRoom s0).2 <= 20.
Proof.
  intros s0. split; [apply lcg_good_seed|].
  assert (Hreach : reachable s0 (drawRoom s0).2).
  { apply (reach_step s0 s0 DrawRoom (drawRoom s0).1); [apply reach_start|].
    cbn [perform]. destruct (drawRoom s0); reflexivity. }
  destruct (health_within_bounds (H := lcg_rng) 42 0 blank (drawRoom s0).2
              (lcg_good_seed 42) Hreach) as (Hmax & Hle & _).
  split; assumption.
Defined.

(** ** Where the cards go *)





Lemma cardsInPlay_eq (s : Game) :
  cardsInPlay s
  = deck s ++ room s ++ option_list (roomCarriedCard s) ++ outCards s.
Proof. reflexivity. Qed.


Lemma perform_over op s : gameOver s = true -> perform op s = Some (false, s).
Proof.
  intros Hover. destruct op as [| |index|]; cbn [perform].
  - unfold drawRoom. rewrite Hover. reflexivity.
  - rewrite avoidRoom_refused by auto. reflexivity.
  - unfold selectCard. rewrite Hover. reflexivity.
  - unfold faceRoom. rewrite Hover, orb_true_r. reflexivity.
Qed.







(** X9. [drawRoom] does not keep the room it finds.  Called while the game
    is on, it drops the cards of the current room: they are in no pile
    afterwards, and every other card stays in play. *)
Theorem drawRoom_drops_the_room (s : Game) :
  gameOver s = false ->
  cardsInPlay (drawRoom s).2 ++ room s ≡ₚ cardsInPlay s
  /\ length (cardsInPlay (drawRoom s).2)
     = (length (cardsInPlay s) - length (room s))%nat.
Proof.
  intros Hgo.
  assert (Hperm : cardsInPlay (drawRoom s).2 ++ room s ≡ₚ cardsInPlay s).
  { destruct (drawRoom_fill s Hgo) as (Hr & Hd & Hdis & Hw & Hc & _).
    cbv zeta in *.
    destruct (fillRoom_cards s) as [Hroom Hdeck]. rewrite Hroom in Hr. rewrite Hdeck in Hd.
    rewrite !cardsInPlay_eq. unfold outCards. rewrite Hr, Hd, Hdis, Hw, Hc.
    rewrite <- (take_drop (4 - length (option_list (roomCarriedCard s))) (deck s)) at 3.
    change (option_list None) with (@nil Card). cbn [app]. solve_Permutation. }
  split; [exact Hperm|].
  apply Permutation_length in Hperm. rewrite length_app in Hperm. lia.
Qed.

Lemma drawRoom_drops_the_room_witness :
  gameOver full_room = false
  /\ length (cardsInPlay full_room) = 9%nat
  /\ length (cardsInPlay (drawRoom full_room).2) = 5%nat.
Proof.
  split; [reflexivity|]. split; [reflexivity|].
  destruct (drawRoom_drops_the_room full_room eq_refl) as [_ Hlen].
  rewrite Hlen. reflexivity.
Defined.

(** ** Switching weapons *)

Lemma fightMonster_with_weapon (card : Card) (w : Weapon) (s : Game) :
  weapon s = Some w -> canUseWeapon card w = true ->
  (fightMonster card s).1 = Z.max 0 (value card - w_value w)
  /\ weapon (fightMonster card s).2
     = Some (mkWeapon (w_value w) (Some (value card))
               (defeatedMonsters w ++ [card]))
  /\ discard (fightMonster card s).2 = discard s.
Proof.
  intros Hw Huse. unfold fightMonster. rewrite Hw, Huse. repeat split.
Qed.

Lemma resolveWeapon_fields (card : Card) (s : Game) :
  weapon (resolveWeapon card s) = Some (mkWeapon (value card) None [])
  /\ discard (resolveWeapon card s) = discard s ++ weaponCards (weapon s)
  /\ health (resolveWeapon card s) = health s
  /\ potionUsedThisTurn (resolveWeapon card s) = potionUsedThisTurn s.
Proof.
  unfold resolveWeapon. destruct (weapon s) as [w|]; fields;
    cbn [weaponCards app]; rewrite ?app_nil_r; repeat split.
Qed.

(** X10. Equipping a weapon forfeits the old one with its history: the
    token of the old weapon, then the monsters stacked on it in the order
    they were defeated, are appended to the discard pile (nothing is, when
    no weapon was equipped), and the new weapon starts with no
    [lastDefeated] and an empty stack, whatever the old one had reached.
    The next monster is therefore always fought with the new weapon, for
    [max(0, value - weapon.value)] damage.  Health and the potion flag are
    untouched by the switch. *)
Theorem weapon_switch_forfeits_history (card next : Card) (s : Game) :
  let s' := resolveWeapon card s in
  weapon s' = Some (mkWeapon (value card) None [])
  /\ discard s' = discard s ++ weaponCards (weapon s)
  /\ health s' = health s
  /\ potionUsedThisTurn s' = potionUsedThisTurn s
  /\ weapon (resolveMonster next s')
     = Some (mkWeapon (value card) (Some (value next)) [next])
  /\ health (resolveMonster next s')
     = health s - Z.max 0 (value next - value card)
  /\ discard (resolveMonster next s') = discard s'.
Proof.
  cbv zeta. destruct (resolveWeapon_fields card s) as (Hw & Hd & Hh & Hp).
  revert Hw Hd Hh Hp. generalize (resolveWeapon card s). intros s' Hw Hd Hh Hp.
  repeat (split; [assumption|]).
  destruct (fightMonster_with_weapon next _ s' Hw eq_refl) as (Hdmg & Hw' & Hd').
  unfold resolveMonster.
  rewrite takeDamage_weapon, takeDamage_discard, takeDamage_health
    by (rewrite Hdmg; lia).
  rewrite fightMonster_health, Hdmg, Hw', Hd', Hh. repeat split.
Qed.

(** ** Avoiding a room *)

(** A draw that fills the room leaves the game on. *)
Lemma drawRoom_full (s : Game) :
  gameOver s = false -> length (room (fillRoom s)) = 4%nat ->
  (drawRoom s).1 = true /\ gameOver (drawRoom s).2 = false.
Proof.
  intros Hgo H4. rewrite (drawRoom_unfold s Hgo), H4.
  destruct (fillRoom_fields s) as (_ & _ & _ & _ & _ & _ & _ & _ & Hg & _).
  rewrite Hgo in Hg. revert Hg. generalize (fillRoom s). intros t Hg.
  change (4 <? 4)%nat with false. cbn [andb fst snd].
  split; [reflexivity|exact Hg].
Qed.


Lemma putBack_fields (s : Game) :
  gameOver (putBack s) = gameOver s
  /\ roomCarriedCard (putBack s) = None
  /\ deck (putBack s) = deck s ++ room s
  /\ health (putBack s) = health s
  /\ discard (putBack s) = discard s
  /\ weapon (putBack s) = weapon s
  /\ canAvoid (putBack s) = false.
Proof. repeat split. Qed.

(** X11. An [avoidRoom] that is allowed ([canAvoid], game on, 4 cards in
    the room) returns [true], puts the four cards under the deck in room
    order and deals the next room from the top: the new room is the first
    four cards of deck-then-room and the deck is the rest.  It never ends
    the game, spends [canAvoid], empties the selection and the carry slot,
    and leaves health, discard pile and weapon alone.  With fewer than 4
    cards in the deck, cards of the avoided room come straight back. *)
Theorem avoidRoom_goes_under (s : Game) :
  canAvoid s = true -> gameOver s = false -> length (room s) = 4%nat ->
  let s' := (avoidRoom s).2 in
  (avoidRoom s).1 = true
  /\ room s' = take 4 (deck s ++ room s)
  /\ deck s' = drop 4 (deck s ++ room s)
  /\ length (room s') = 4%nat /\ length (deck s') = length (deck s)
  /\ gameOver s' = false /\ canAvoid s' = false
  /\ selectedCards s' = [] /\ roomCarriedCard s' = None
  /\ health s' = health s /\ discard s' = discard s /\ weapon s' = weapon s
  /\ (deck s = [] -> room s' = room s).
Proof.
  intros Ha Hgo H4. cbv zeta.
  pose proof (avoidRoom_unfold s Ha Hgo H4) as E.
  destruct (putBack_fields s) as (Pg & Pc & Pd & Ph & Pdis & Pw & Pa).
  revert E Pg Pc Pd Ph Pdis Pw Pa. generalize (putBack s).
  intros p E Pg Pc Pd Ph Pdis Pw Pa. rewrite Hgo in Pg.
  destruct (avoidRoom s) as [b s']. cbn [fst snd]. injection E as -> ->.
  destruct (drawRoom_fill p Pg)
    as (Hr & Hd & Hdis & Hw & Hc & Hsel & Hh & _ & _ & Hca & _).
  destruct (fillRoom_cards p) as [Hroom Hdeck].
  cbv zeta in *. rewrite Pc, Pd in Hroom, Hdeck.
  change (option_list None) with (@nil Card) in Hroom, Hdeck.
  cbn [app length Nat.sub] in Hroom, Hdeck.
  assert (Hlen : length (take 4 (deck s ++ room s)) = 4%nat)
    by (rewrite length_take, length_app; lia).
  split; [reflexivity|].
  split; [rewrite Hr; exact Hroom|]. split; [rewrite Hd; exact Hdeck|].
  split; [rewrite Hr, Hroom; exact Hlen|].
  split; [rewrite Hd, Hdeck, length_drop, length_app; lia|].
  split; [apply (drawRoom_full p Pg); rewrite Hroom; exact Hlen|].
  split; [rewrite Hca; exact Pa|].
  split; [exact Hsel|]. split; [exact Hc|].
  split; [rewrite Hh; exact Ph|].
  split; [rewrite Hdis; exact Pdis|].
  split; [rewrite Hw; exact Pw|].
  intros Hempty. rewrite Hr, Hroom, Hempty. cbn [app].
  rewrite take_ge by lia. reflexivity.
Qed.

Lemma avoidRoom_goes_under_witness :
  canAvoid full_room = true /\ gameOver full_room = false
  /\ length (room full_room) = 4%nat
  /\ room (avoidRoom full_room).2 = take 4 (deck full_room)
  /\ deck (avoidRoom full_room).2
     = drop 4 (deck full_room) ++ room full_room.
Proof.
  split; [reflexivity|]. split; [reflexivity|]. split; [reflexivity|].
  destruct (avoidRoom_goes_under full_room eq_refl eq_refl eq_refl)
    as (_ & Hr & Hd & _).
  rewrite Hr, Hd. split; reflexivity.
Defined.

(** ** The stack of a weapon *)

Lemma weapon_ok_push (w : Weapon) (card : Card) :
  weapon_ok w -> canUseWeapon card w = true ->
  weapon_ok (mkWeapon (w_value w) (Some (value card)) (defeatedMonsters w ++ [card])).
Proof.
  intros [Hlast Hsorted] Huse. unfold weapon_ok. cbn [lastDefeated defeatedMonsters].
  split; [rewrite last_snoc; reflexivity|].
  intros i x y Hx Hy.
  destruct (Nat.lt_ge_cases (S i) (length (defeatedMonsters w))) as [Hin|Hout].
  - rewrite lookup_app_l in Hx, Hy by lia. apply (Hsorted i x y Hx Hy).
  - rewrite (lookup_app_r _ _ (S i)) in Hy by lia.
    destruct (S i - length (defeatedMonsters w))%nat as [|k] eqn:Hk;
      [|destruct k; discriminate Hy].
    injection Hy as <-.
    rewrite lookup_app_l in Hx by lia.
    rewrite last_lookup in Hlast.
    replace (pred (length (defeatedMonsters w))) with i in Hlast by lia.
    rewrite Hx in Hlast. cbn in Hlast.
    unfold canUseWeapon in Huse. rewrite Hlast in Huse. lia.
Qed.

Lemma resolveCard_weapon_ok (card : Card) (s : Game) :
  weapon_state_ok s -> weapon_state_ok (resolveCard card s).
Proof.
  intros Hok. unfold resolveCard. destruct (getCardType card).
  - unfold resolveMonster, weapon_state_ok. rewrite takeDamage_weapon.
    unfold fightMonster. destruct (weapon s) as [w|] eqn:Hw;
      [destruct (canUseWeapon card w) eqn:Huse|]; fields.
    + intros w' [= <-]. apply weapon_ok_push; [apply Hok, Hw|exact Huse].
    + rewrite Hw. intros w' [= <-]. apply Hok, Hw.
    + rewrite Hw. discriminate.
  - intros w. destruct (resolveWeapon_fields card s) as (Hw & _). rewrite Hw.
    intros [= <-]. split; [reflexivity|]. intros i x y Hx. discriminate Hx.
  - unfold resolvePotion. destruct (potionUsedThisTurn s); exact Hok.
  - exact Hok.
Qed.

Lemma resolveSelected_weapon_ok indices s t :
  weapon_state_ok s -> resolveSelected indices s = Some t -> weapon_state_ok t.
Proof.
  revert s. induction indices as [|index rest IH]; intros s Hok Hrun;
    cbn [resolveSelected] in Hrun.
  - injection Hrun as <-. exact Hok.
  - destruct (js_get (room s) index) as [card|]; [|discriminate].
    pose proof (resolveCard_weapon_ok card s Hok) as Hok1.
    revert Hrun Hok1. generalize (resolveCard card s). intros s1 Hrun Hok1.
    destruct (gameOver s1); [injection Hrun as <-; exact Hok1|].
    apply (IH s1 Hok1 Hrun).
Qed.

Lemma drawRoom_weapon s : weapon (drawRoom s).2 = weapon s.
Proof.
  destruct (gameOver s) eqn:Hgo.
  - unfold drawRoom. rewrite Hgo. reflexivity.
  - apply (drawRoom_fill s Hgo).
Qed.

Lemma perform_weapon_ok op s b s' :
  weapon_state_ok s -> perform op s = Some (b, s') -> weapon_state_ok s'.
Proof.
  intros Hok. destruct op as [| |index|]; cbn [perform]; intros Hp.
  - injection Hp as Hp. assert (Hs : s' = (drawRoom s).2) by (rewrite Hp; reflexivity).
    subst s'. intros w Hw. rewrite drawRoom_weapon in Hw. apply (Hok w Hw).
  - destruct (canAvoid s) eqn:Ha; [destruct (gameOver s) eqn:Hg;
      [|destruct (decide (length (room s) = 4%nat)) as [Hr|Hr]]|];
      try (rewrite avoidRoom_refused in Hp by auto; injection Hp as <- <-; auto).
    rewrite (avoidRoom_unfold s Ha Hg Hr) in Hp. injection Hp as <- <-.
    intros w Hw. rewrite drawRoom_weapon in Hw.
    destruct (putBack_fields s) as (_ & _ & _ & _ & _ & Pw & _).
    rewrite Pw in Hw. apply (Hok w Hw).
  - injection Hp as Hp. assert (Hs : s' = (selectCard index s).2) by (rewrite Hp; reflexivity).
    subst s'. destruct (selectCard_frame index s) as [l ->]. exact Hok.
  - destruct (decide (length (selectedCards s) = 3%nat)) as [H3|H3];
      [destruct (gameOver s) eqn:Hgo|].
    + unfold faceRoom in Hp. rewrite Hgo, orb_true_r in Hp. injection Hp as <- <-. auto.
    + rewrite (faceRoom_unfold s H3 Hgo) in Hp.
      destruct (resolveSelected (selectedCards s) s) as [t|] eqn:Hrun; [|discriminate].
      injection Hp as <- <-.
      pose proof (resolveSelected_weapon_ok _ s t Hok Hrun) as Hokt.
      assert (Lw : weapon (leaveRoom (carriedAfter t) t) = weapon t) by reflexivity.
      revert Lw. generalize (leaveRoom (carriedAfter t) t). intros l Lw.
      destruct (gameOver t); intros w Hw; [|rewrite drawRoom_weapon in Hw];
        rewrite Lw in Hw; apply (Hokt w Hw).
    + unfold faceRoom in Hp.
      destruct (Nat.eqb_spec (length (selectedCards s)) 3); [contradiction|].
      injection Hp as <- <-. auto.
Qed.

(** X12. The monsters stacked on a weapon never grow.  In every state
    reachable from a game without a weapon (as [reset] leaves it), the
    equipped weapon's [lastDefeated] is the value of the monster defeated
    last ([null] exactly when the stack is empty), and each monster on the
    stack is worth no more than the one defeated before it. *)
Theorem weapon_stack_never_grows (s0 s : Game) (w : Weapon) :
  weapon s0 = None -> reachable s0 s -> weapon s = Some w ->
  lastDefeated w = value <$> last (defeatedMonsters w)
  /\ forall i x y,
       defeatedMonsters w !! i = Some x ->
       defeatedMonsters w !! S i = Some y -> value y <= value x.
Proof.
  intros Hnone Hreach Hw. change (weapon_ok w). revert w Hw.
  change (weapon_state_ok s).
  induction Hreach as [|s op b s' _ IH Hp].
  - intros w Hw. congruence.
  - apply (perform_weapon_ok op s b s' IH Hp).
Qed.

Lemma weapon_stack_never_grows_witness :
  exists s w,
    weapon carry_room = None /\ reachable carry_room s /\ weapon s = Some w
    /\ lastDefeated w = Some 8 /\ length (defeatedMonsters w) = 1%nat.
Proof.
  assert (Hstep : exists s w, perform FaceRoom carry_room = Some (true, s)
                              /\ weapon s = Some w
                              /\ (value <$> last (defeatedMonsters w)) = Some 8
                              /\ length (defeatedMonsters w) = 1%nat).
  { do 2 eexists. split; [vm_compute; reflexivity|].
    split; [vm_compute; reflexivity|]. split; vm_compute; reflexivity. }
  destruct Hstep as (s & w & Hp & Hw & Hlast & Hlen). exists s, w.
  assert (Hreach : reachable carry_room s)
    by (eapply reach_step; [apply reach_start|exact Hp]).
  split; [reflexivity|]. split; [exact Hreach|]. split; [exact Hw|].
  destruct (weapon_stack_never_grows carry_room s w eq_refl Hreach Hw) as [Hl _].
  split; [rewrite Hl; exact Hlast|exact Hlen].
Defined.

(** ** Snapshots *)


(** ** Pictures *)

Lemma suit_cases (su : string) :
  (su = SUITS.HEARTS \/ su = SUITS.DIAMONDS \/ su = SUITS.CLUBS \/ su = SUITS.SPADES)
  \/ (String.eqb su SUITS.HEARTS = false /\ String.eqb su SUITS.DIAMONDS = false
      /\ String.eqb su SUITS.CLUBS = false /\ String.eqb su SUITS.SPADES = false).
Proof.
  destruct (String.eqb_spec su SUITS.HEARTS); [auto|].
  destruct (String.eqb_spec su SUITS.DIAMONDS); [auto|].
  destruct (String.eqb_spec su SUITS.CLUBS); [auto|].
  destruct (String.eqb_spec su SUITS.SPADES); [auto 6|].
  right. auto.
Qed.

(** X14. Every card a deck can hold has its own picture: for a card of one
    of the four suits whose value is in the range of its type (2 to 14 for
    clubs and spades, 2 to 10 for diamonds and hearts), [getCardImage]
    never falls back to "deck.jpg".  A card of any other suit, and a
    diamond above 10, gets the fallback. *)
Theorem getCardImage_covers_the_deck (card : Card) :
  (in_range card -> getCardImage card <> "deck.jpg")
  /\ (getCardType card = unknown -> getCardImage card = "deck.jpg")
  /\ (suit card = SUITS.DIAMONDS -> 10 < value card ->
      getCardImage card = "deck.jpg").
Proof.
  destruct card as [su rk v].
  unfold in_range, getCardType, getCardImage, between. cbn [suit value].
  destruct (suit_cases su) as [[-> | [-> | [-> | ->]]] | (Hh & Hd & Hc & Hs)].
  - cbn. repeat split; discriminate.
  - change (String.eqb SUITS.DIAMONDS SUITS.CLUBS) with false.
    change (String.eqb SUITS.DIAMONDS SUITS.SPADES) with false.
    change (String.eqb SUITS.DIAMONDS SUITS.HEARTS) with false.
    change (String.eqb SUITS.DIAMONDS SUITS.DIAMONDS) with true.
    cbn [orb andb]. repeat split.
    + intros Hv.
      destruct (Z.leb_spec 2 v), (Z.leb_spec v 4), (Z.leb_spec 5 v),
        (Z.leb_spec v 7), (Z.leb_spec 8 v), (Z.leb_spec v 10);
        cbn [andb]; try discriminate; lia.
    + discriminate.
    + intros _ Hv.
      destruct (Z.leb_spec 2 v), (Z.leb_spec v 4), (Z.leb_spec 5 v),
        (Z.leb_spec v 7), (Z.leb_spec 8 v), (Z.leb_spec v 10);
        cbn [andb]; try reflexivity; lia.
  - change (String.eqb SUITS.CLUBS SUITS.CLUBS) with true.
    change (String.eqb SUITS.CLUBS SUITS.HEARTS) with false.
    change (String.eqb SUITS.CLUBS SUITS.DIAMONDS) with false.
    cbn [orb andb]. repeat split; try discriminate.
    intros Hv.
    destruct (Z.leb_spec 2 v), (Z.leb_spec v 5), (Z.leb_spec 6 v),
      (Z.leb_spec v 10), (Z.leb_spec 11 v);
      cbn [andb]; try discriminate; lia.
  - change (String.eqb SUITS.SPADES SUITS.SPADES) with true.
    change (String.eqb SUITS.SPADES SUITS.CLUBS) with false.
    change (String.eqb SUITS.SPADES SUITS.HEARTS) with false.
    change (String.eqb SUITS.SPADES SUITS.DIAMONDS) with false.
    cbn [orb andb]. repeat split; try discriminate.
    intros Hv.
    destruct (Z.leb_spec 2 v), (Z.leb_spec v 5), (Z.leb_spec 6 v),
      (Z.leb_spec v 10), (Z.leb_spec 11 v);
      cbn [andb]; try discriminate; lia.
  - rewrite Hh, Hd, Hc, Hs. cbn [orb andb]. repeat split; contradiction.
Qed.

Lemma getCardImage_covers_the_deck_witness :
  in_range (card_of SUITS.SPADES 12)
  /\ getCardImage (card_of SUITS.SPADES 12) <> "deck.jpg"
  /\ getCardImage (card_of SUITS.DIAMONDS 11) = "deck.jpg".
Proof.
  assert (Hr : in_range (card_of SUITS.SPADES 12)) by (vm_compute; intuition discriminate).
  split; [exact Hr|].
  destruct (getCardImage_covers_the_deck (card_of SUITS.SPADES 12)) as (Hin & _).
  destruct (getCardImage_covers_the_deck (card_of SUITS.DIAMONDS 11)) as (_ & _ & Hd).
  split; [apply Hin, Hr|apply Hd; [reflexivity|cbn; lia]].
Defined.

(** ** A new game *)

(** X15. A new game, [reset] with a good seed followed by [drawRoom]:
    the call returns [true], the room is the first four cards of the
    shuffled deck, the deck is the remaining forty, and together they are
    the 44 cards of [createDeck]; the game is on at turn 1 with 20 health,
    nothing selected, nothing discarded, and [canAvoid] set. *)
Theorem new_game_first_room `{SeededRng} (seed now : Z) (prior : Game) :
  good_seed seed ->
  let s0 := reset (Some seed) now prior in
  let s1 := (drawRoom s0).2 in
  (drawRoom s0).1 = true
  /\ room s1 = take 4 (deck s0) /\ deck s1 = drop 4 (deck s0)
  /\ length (room s1) = 4%nat /\ length (deck s1) = 40%nat
  /\ room s1 ++ deck s1 ≡ₚ createDeck
  /\ gameOver s1 = false /\ turn s1 = 1 /\ health s1 = 20
  /\ selectedCards s1 = [] /\ discard s1 = [] /\ canAvoid s1 = true.
Proof.
  intros Hgood. cbv zeta.
  destruct (reset_deck seed now prior) as (Hperm & H44 & Heq).
  cbv zeta in *. revert Hperm H44 Heq. generalize (reset (Some seed) now prior).
  intros s0 Hperm H44 Heq.
  assert (Hgo : gameOver s0 = false) by (rewrite Heq; reflexivity).
  assert (Hc : roomCarriedCard s0 = None) by (rewrite Heq; reflexivity).
  assert (Ht : turn s0 = 0) by (rewrite Heq; reflexivity).
  assert (Hh : health s0 = 20) by (rewrite Heq; reflexivity).
  assert (Hd : discard s0 = []) by (rewrite Heq; reflexivity).
  assert (Ha : canAvoid s0 = true) by (rewrite Heq; reflexivity).
  clear Heq.
  destruct (drawRoom_fill s0 Hgo)
    as (Hr' & Hd' & Hdis' & _ & _ & Hsel' & Hh' & _ & _ & Hca' & _).
  destruct (fillRoom_cards s0) as [Hroom Hdeck].
  destruct (drawRoom_appends s0 Hgo) as [_ Hturn].
  cbv zeta in *. rewrite Hc in Hroom, Hdeck.
  change (option_list None) with (@nil Card) in Hroom, Hdeck.
  cbn [app length Nat.sub] in Hroom, Hdeck.
  assert (Hlen : length (room (fillRoom s0)) = 4%nat)
    by (rewrite Hroom, length_take; lia).
  destruct (drawRoom_full s0 Hgo Hlen) as [Hret Hon].
  rewrite Hr', Hd', Hroom, Hdeck.
  split; [exact Hret|]. split; [reflexivity|]. split; [reflexivity|].
  split; [rewrite length_take; lia|]. split; [rewrite length_drop; lia|].
  split; [rewrite take_drop; exact Hperm|].
  split; [exact Hon|]. split; [lia|]. split; [congruence|].
  split; [exact Hsel'|]. split; congruence.
Qed.

Lemma new_game_first_room_witness :
  let s0 := reset (H := lcg_rng) (Some 42) 0 blank in
  good_seed (H := lcg_rng) 42
  /\ (drawRoom s0).1 = true /\ length (room (drawRoom s0).2) = 4%nat.
Proof.
  intros s0. split; [apply lcg_good_seed|].
  destruct (new_game_first_room (H := lcg_rng) 42 0 blank (lcg_good_seed 42))
    as (Hret & _ & _ & Hlen & _).
  split; assumption.
Defined.

(** ** The score *)










(** ** What is final *)

(** X17. A finished game is final: once [gameOver] is set, every script of
    operations returns [false] at each step and leaves the state, and so
    the score, exactly as it was. *)
Theorem game_over_is_final (s : Game) (ops : list Op) :
  gameOver s = true ->
  run ops s = Some s /\ Forall (fun op => perform op s = Some (false, s)) ops.
Proof.
  intros Hover. split.
  - induction ops as [|op ops IH]; cbn [run]; [reflexivity|].
    rewrite (perform_over op s Hover). exact IH.
  - apply Forall_forall. intros op _. apply (perform_over op s Hover).
Qed.

Lemma game_over_is_final_witness :
  exists s,
    faceRoom fatal_room = Some (true, s) /\ gameOver s = true
    /\ run [DrawRoom; AvoidRoom; SelectCard 0; FaceRoom] s = Some s.
Proof.
  assert (Hface : exists s, faceRoom fatal_room = Some (true, s) /\ gameOver s = true).
  { eexists. split; vm_compute; reflexivity. }
  destruct Hface as (s & Hface & Hover). exists s.
  split; [exact Hface|]. split; [exact Hover|].
  apply (game_over_is_final s [DrawRoom; AvoidRoom; SelectCard 0; FaceRoom] Hover).
Defined.

Lemma resolveCard_discard card s :
  discard s `prefix_of` discard (resolveCard card s).
Proof.
  unfold resolveCard. destruct (getCardType card).
  - unfold resolveMonster. rewrite takeDamage_discard. unfold fightMonster.
    destruct (weapon s) as [w|]; [destruct (canUseWeapon card w)|]; fields;
      first [reflexivity|apply prefix_app_r; reflexivity].
  - destruct (resolveWeapon_fields card s) as (_ & -> & _).
    apply prefix_app_r. reflexivity.
  - unfold resolvePotion. destruct (potionUsedThisTurn s); fields;
      apply prefix_app_r; reflexivity.
  - reflexivity.
Qed.

Lemma resolveSelected_discard indices s t :
  resolveSelected indices s = Some t -> discard s `prefix_of` discard t.
Proof.
  revert s. induction indices as [|index rest IH]; intros s Hrun;
    cbn [resolveSelected] in Hrun.
  - injection Hrun as <-. reflexivity.
  - destruct (js_get (room s) index) as [card|]; [|discriminate].
    pose proof (resolveCard_discard card s) as Hd.
    revert Hrun Hd. generalize (resolveCard card s). intros s1 Hrun Hd.
    destruct (gameOver s1); [injection Hrun as <-; exact Hd|].
    etrans; [exact Hd|apply (IH s1 Hrun)].
Qed.

Lemma drawRoom_discard s : discard (drawRoom s).2 = discard s.
Proof.
  destruct (gameOver s) eqn:Hgo.
  - unfold drawRoom. rewrite Hgo. reflexivity.
  - apply (drawRoom_fill s Hgo).
Qed.

Lemma perform_discard op s b s' :
  perform op s = Some (b, s') -> discard s `prefix_of` discard s'.
Proof.
  destruct op as [| |index|]; cbn [perform]; intros Hp.
  - injection Hp as Hp. assert (Hs : s' = (drawRoom s).2) by (rewrite Hp; reflexivity).
    subst s'. rewrite drawRoom_discard. reflexivity.
  - destruct (canAvoid s) eqn:Ha; [destruct (gameOver s) eqn:Hg;
      [|destruct (decide (length (room s) = 4%nat)) as [Hr|Hr]]|];
      try (rewrite avoidRoom_refused in Hp by auto; injection Hp as <- <-;
           reflexivity).
    rewrite (avoidRoom_unfold s Ha Hg Hr) in Hp. injection Hp as <- <-.
    rewrite drawRoom_discard.
    destruct (putBack_fields s) as (_ & _ & _ & _ & -> & _). reflexivity.
  - injection Hp as Hp. assert (Hs : s' = (selectCard index s).2) by (rewrite Hp; reflexivity).
    subst s'. destruct (selectCard_frame index s) as [l ->]. reflexivity.
  - destruct (decide (length (selectedCards s) = 3%nat)) as [H3|H3];
      [destruct (gameOver s) eqn:Hgo|].
    + unfold faceRoom in Hp. rewrite Hgo, orb_true_r in Hp. injection Hp as <- <-.
      reflexivity.
    + rewrite (faceRoom_unfold s H3 Hgo) in Hp.
      destruct (resolveSelected (selectedCards s) s) as [t|] eqn:Hrun; [|discriminate].
      injection Hp as <- <-.
      pose proof (resolveSelected_discard _ s t Hrun) as Hd.
      assert (Ld : discard (leaveRoom (carriedAfter t) t) = discard t) by reflexivity.
      revert Ld. generalize (leaveRoom (carriedAfter t) t). intros l Ld.
      destruct (gameOver t); [|rewrite drawRoom_discard]; rewrite Ld; exact Hd.
    + unfold faceRoom in Hp.
      destruct (Nat.eqb_spec (length (selectedCards s)) 3); [contradiction|].
      injection Hp as <- <-. reflexivity.
Qed.

(** X18. Nothing leaves the discard pile: in every state the driver can
    reach from [s0], the discard pile of [s0] is a prefix of the discard
    pile.  Only resolving a card adds to it; drawing, avoiding and
    selecting do not touch it. *)
Theorem discard_only_grows (s0 s : Game) :
  reachable s0 s ->
  discard s0 `prefix_of` discard s
  /\ (forall op b s',
        op <> FaceRoom -> perform op s = Some (b, s') -> discard s' = discard s).
Proof.
  intros Hreach. split.
  - induction Hreach as [|s op b s' _ IH Hp]; [reflexivity|].
    etrans; [exact IH|apply (perform_discard op s b s' Hp)].
  - intros op b s' Hop Hp. destruct op as [| |index|]; cbn [perform] in Hp.
    + injection Hp as Hp. assert (Hs : s' = (drawRoom s).2) by (rewrite Hp; reflexivity).
      subst s'. apply drawRoom_discard.
    + destruct (canAvoid s) eqn:Ha; [destruct (gameOver s) eqn:Hg;
        [|destruct (decide (length (room s) = 4%nat)) as [Hr|Hr]]|];
        try (rewrite avoidRoom_refused in Hp by auto; injection Hp as <- <-;
             reflexivity).
      rewrite (avoidRoom_unfold s Ha Hg Hr) in Hp. injection Hp as <- <-.
      rewrite drawRoom_discard.
      destruct (putBack_fields s) as (_ & _ & _ & _ & -> & _). reflexivity.
    + injection Hp as Hp. assert (Hs : s' = (selectCard index s).2) by (rewrite Hp; reflexivity).
      subst s'. destruct (selectCard_frame index s) as [l ->]. reflexivity.
    + contradiction.
Qed.

Lemma discard_only_grows_witness :
  exists s,
    reachable two_potions s
    /\ discard two_potions `prefix_of` discard s
    /\ length (discard s) = 3%nat.
Proof.
  assert (Hstep : exists s, perform FaceRoom two_potions = Some (true, s)
                            /\ length (discard s) = 3%nat).
  { eexists. split; vm_compute; reflexivity. }
  destruct Hstep as (s & Hp & Hlen). exists s.
  assert (Hreach : reachable two_potions s)
    by (eapply reach_step; [apply reach_start|exact Hp]).
  split; [exact Hreach|].
  split; [apply (discard_only_grows two_potions s Hreach)|exact Hlen].
Defined.
